(** * WhisperWrapper: a shallow embedding of the C glue around whisper.cpp

    The development follows [Sources/WhisperWrapper/WhisperWrapper.c]:
    three entry points ([whisper_wrapper_init_from_file],
    [whisper_wrapper_free], [whisper_wrapper_full_transcribe]) that forward to
    the whisper.cpp library and copy the segment texts into a caller-supplied
    buffer.

    - C [int] is a [Z] together with its 32-bit two's-complement wrap-around
      ([CInt.wrap_int]); every arithmetic result of the source is wrapped.
    - A nullable pointer is an [option]; [NULL] is [None].
    - A [const char *] handed out by the library is the [string] of the bytes
      found at that address; [strlen] and [strcpy] stop at the first NUL, and
      the end of the [string] counts as one.
    - The caller's buffer lives in a heap of blocks addressed by an integer
      offset; a store is recorded in the trace with its offset, whether or not
      the offset lies inside the size the caller announced.
    - whisper.cpp itself is not part of the repository: it is an interface
      ([WhisperLibrary]) over a hidden library state. *)

From Stdlib Require Import ZArith List String Ascii Bool Lia.
From Stdlib Require Import Floats.SpecFloat.
Import ListNotations.

Local Open Scope Z_scope.

(** ** C integers *)

Module CInt.

Definition INT_MAX : Z := 2147483647.
Definition INT_MIN : Z := -2147483648.

Definition in_int (z : Z) : Prop := INT_MIN <= z <= INT_MAX.

(** Reduction of a mathematical integer to the value of a 32-bit signed
    [int]: what an addition leaves in the register, and what the conversion
    of a [size_t] to [int] yields. *)
Definition wrap_int (z : Z) : Z := (z + 2147483648) mod 4294967296 - 2147483648.

Lemma wrap_int_id z : in_int z -> wrap_int z = z.
Proof.
  unfold in_int, INT_MIN, INT_MAX, wrap_int. intros H.
  rewrite Z.mod_small by lia. lia.
Qed.

Lemma wrap_int_range z : in_int (wrap_int z).
Proof.
  unfold in_int, INT_MIN, INT_MAX, wrap_int.
  pose proof (Z.mod_pos_bound (z + 2147483648) 4294967296). lia.
Qed.

(** The three conversions of lines 85-86 are exact when the sum fits. *)
Lemma wrap_int_sum pos len :
  0 <= pos -> 0 <= len -> pos + len + 1 <= INT_MAX ->
  wrap_int len = len /\
  wrap_int (pos + len) = pos + len /\
  wrap_int (pos + len + 1) = pos + len + 1.
Proof.
  unfold INT_MAX. intros Hpos Hlen Hsum.
  repeat split; apply wrap_int_id; unfold in_int, INT_MIN, INT_MAX; lia.
Qed.

End CInt.
Export CInt.

(** ** C strings *)

Module CString.

Definition nul : ascii := Ascii.zero.

Definition is_nul (c : ascii) : bool := Ascii.eqb c nul.

(** [strlen]: number of bytes before the first NUL. *)
Fixpoint strlen (s : string) : nat :=
  match s with
  | EmptyString => O
  | String c rest => if is_nul c then O else S (strlen rest)
  end.

(** The bytes [strlen] counts and [strcpy] copies: the text of the C string. *)
Fixpoint c_str (s : string) : string :=
  match s with
  | EmptyString => EmptyString
  | String c rest => if is_nul c then EmptyString else String c (c_str rest)
  end.

(** No NUL byte occurs in the string. *)
Fixpoint nul_free (s : string) : Prop :=
  match s with
  | EmptyString => True
  | String c rest => is_nul c = false /\ nul_free rest
  end.

Lemma strlen_c_str s : String.length (c_str s) = strlen s.
Proof.
  induction s as [|c rest IH]; simpl; [reflexivity|].
  destruct (is_nul c); simpl; congruence.
Qed.

Lemma nul_free_c_str s : nul_free (c_str s).
Proof.
  induction s as [|c rest IH]; simpl; [exact I|].
  destruct (is_nul c) eqn:E; simpl; auto.
Qed.

Lemma length_append (a b : string) :
  String.length (a ++ b) = (String.length a + String.length b)%nat.
Proof. induction a as [|c a IH]; simpl; congruence. Qed.

Lemma nul_free_append (a b : string) :
  nul_free a -> nul_free b -> nul_free (a ++ b).
Proof. induction a as [|c a IH]; simpl; intuition. Qed.

End CString.
Export CString.

(** ** The whisper.cpp interface *)

(** [float]: an IEEE-754 binary32 value in sign / mantissa / exponent form. *)
Definition float32 : Type := spec_float.

Definition f32_zero : float32 := S754_zero false.               (* 0.0f *)
Definition f32_one : float32 := S754_finite false 8388608 (-23). (* 1.0f *)
Definition f32_minus_one : float32 := S754_finite true 8388608 (-23). (* -1.0f *)

Inductive whisper_sampling_strategy :=
| WHISPER_SAMPLING_GREEDY
| WHISPER_SAMPLING_BEAM_SEARCH.

(** [struct whisper_context_params]: the field the wrapper writes, and the
    remaining fields of the library's declaration as one opaque component. *)
Record whisper_context_params (R : Type) := {
  use_gpu : bool;
  cparams_other : R
}.
Arguments use_gpu {R} _.
Arguments cparams_other {R} _.

(** [struct whisper_full_params]: the fields the wrapper writes, and the
    remaining fields (sampling strategy included) as one opaque component
    filled in by [whisper_full_default_params]. *)
Record whisper_full_params (R : Type) := {
  n_threads : Z;
  language : string;
  translate : bool;
  print_realtime : bool;
  print_progress : bool;
  print_timestamps : bool;
  print_special : bool;
  no_context : bool;
  single_segment : bool;
  suppress_blank : bool;
  suppress_nst : bool;
  temperature : float32;
  max_initial_ts : float32;
  length_penalty : float32;
  wparams_other : R
}.
Arguments n_threads {R} _.
Arguments language {R} _.
Arguments translate {R} _.
Arguments print_realtime {R} _.
Arguments print_progress {R} _.
Arguments print_timestamps {R} _.
Arguments print_special {R} _.
Arguments no_context {R} _.
Arguments single_segment {R} _.
Arguments suppress_blank {R} _.
Arguments suppress_nst {R} _.
Arguments temperature {R} _.
Arguments max_initial_ts {R} _.
Arguments length_penalty {R} _.
Arguments wparams_other {R} _.

(** The functions of whisper.h the wrapper calls.  [whisper_state] is all
    the library keeps behind its handles; the two getters read it. The two
    last fields are typing facts: the library returns C [int]s. *)
Class WhisperLibrary := {
  whisper_context : Type;
  whisper_state : Type;
  cparams_rest : Type;
  wparams_rest : Type;
  whisper_context_default_params : whisper_context_params cparams_rest;
  whisper_init_from_file_with_params :
    option string -> whisper_context_params cparams_rest ->
    whisper_state -> option whisper_context * whisper_state;
  whisper_free : whisper_context -> whisper_state -> whisper_state;
  whisper_full_default_params :
    whisper_sampling_strategy -> whisper_full_params wparams_rest;
  whisper_reset_timings : whisper_context -> whisper_state -> whisper_state;
  whisper_print_timings : whisper_context -> whisper_state -> whisper_state;
  whisper_full :
    whisper_context -> whisper_full_params wparams_rest ->
    list float32 -> Z -> whisper_state -> Z * whisper_state;
  whisper_full_n_segments : whisper_context -> whisper_state -> Z;
  whisper_full_get_segment_text :
    whisper_context -> Z -> whisper_state -> option string;
  whisper_full_int :
    forall c p a n s, in_int (fst (whisper_full c p a n s));
  whisper_full_n_segments_int :
    forall c s, in_int (whisper_full_n_segments c s)
}.

(** ** Memory, trace and the monad of the wrapper *)

Definition block : Type := nat.

(** Contents of one block, by offset. *)
Definition bytes : Type := Z -> ascii.

Definition update (m : bytes) (off : Z) (c : ascii) : bytes :=
  fun j => if j =? off then c else m j.

(** Reads the C string starting at [off], looking at no more than [fuel]
    bytes; [None] when none of them is a NUL. *)
Fixpoint load_cstring (m : bytes) (off : Z) (fuel : nat) : option string :=
  match fuel with
  | O => None
  | S fuel' =>
      if is_nul (m off) then Some EmptyString
      else option_map (String (m off)) (load_cstring m (off + 1) fuel')
  end.

Inductive printf_arg :=
| PInt (z : Z)
| PStr (s : option string).

Section Wrapper.

Context {W : WhisperLibrary}.

Inductive event :=
| Call_context_default_params
| Call_init_from_file_with_params
    (path_model : option string) (cparams : whisper_context_params cparams_rest)
| Call_free (ctx : whisper_context)
| Call_full_default_params (strategy : whisper_sampling_strategy)
| Call_reset_timings (ctx : whisper_context)
| Call_full (ctx : whisper_context) (wparams : whisper_full_params wparams_rest)
    (samples : list float32) (n_samples : Z)
| Call_full_n_segments (ctx : whisper_context)
| Call_full_get_segment_text (ctx : whisper_context) (i : Z)
| Call_print_timings (ctx : whisper_context)
| Printf (format : string) (args : list printf_arg)
| Store (b : block) (off : Z) (c : ascii).

Record world := {
  lib : whisper_state;
  heap : block -> bytes
}.

(** A computation reads and changes the world, and emits its events in
    program order. *)
Definition M (A : Type) : Type := world -> A * world * list event.

Definition ret {A} (a : A) : M A := fun w => (a, w, []).

Definition bind {A B} (m : M A) (f : A -> M B) : M B :=
  fun w =>
    let '(a, w1, e1) := m w in
    let '(b, w2, e2) := f a w1 in
    (b, w2, e1 ++ e2).

Notation "x <- m ;; k" := (bind m (fun x => k))
  (at level 61, m at next level, right associativity).
Notation "m ;; k" := (bind m (fun _ => k))
  (at level 61, right associativity).

Definition emit (e : event) : M unit := fun w => (tt, w, [e]).

Definition printf (format : string) (args : list printf_arg) : M unit :=
  emit (Printf format args).

(** [b[off] = c] *)
Definition store (b : block) (off : Z) (c : ascii) : M unit :=
  fun w =>
    (tt,
     {| lib := lib w;
        heap := fun b' => if Nat.eqb b' b then update (heap w b) off c
                          else heap w b' |},
     [Store b off c]).

(** A call that reads the library state. *)
Definition lib_get {A} (e : event) (f : whisper_state -> A) : M A :=
  fun w => (f (lib w), w, [e]).

(** A call that changes the library state. *)
Definition lib_call {A} (e : event) (f : whisper_state -> A * whisper_state)
  : M A :=
  fun w =>
    let '(a, s) := f (lib w) in
    (a, {| lib := s; heap := heap w |}, [e]).

(** [strcpy(dst + off, src)]: the bytes of [src] up to and including its
    terminator. *)
Fixpoint strcpy (dst : block) (off : Z) (src : string) : M unit :=
  match src with
  | EmptyString => store dst off nul
  | String c rest =>
      if is_nul c then store dst off nul
      else store dst off c ;; strcpy dst (off + 1) rest
  end.

(** *** whisper_wrapper_init_from_file *)

Definition whisper_wrapper_init_from_file (path_model : option string)
  : M (option whisper_context) :=
  cparams0 <- lib_get Call_context_default_params
                (fun _ => whisper_context_default_params) ;;
  let cparams := {| use_gpu := true; cparams_other := cparams_other cparams0 |} in
  ctx <- lib_call (Call_init_from_file_with_params path_model cparams)
           (whisper_init_from_file_with_params path_model cparams) ;;
  match ctx with
  | None =>
      printf "whisper_wrapper: failed to initialize context from file '%s'\n"
        [PStr path_model] ;;
      ret None
  | Some c =>
      printf "whisper_wrapper: initialized context from file '%s'\n"
        [PStr path_model] ;;
      ret (Some c)
  end.

(** *** whisper_wrapper_free *)

Definition whisper_wrapper_free (ctx : option whisper_context) : M unit :=
  match ctx with
  | Some c => lib_call (Call_free c) (fun s => (tt, whisper_free c s))
  | None => ret tt
  end.

(** *** whisper_wrapper_full_transcribe *)

(** The assignments to [wparams] of lines 43-60. *)
Definition configure (wparams : whisper_full_params wparams_rest)
  : whisper_full_params wparams_rest :=
  let n_threads := 4 in
  let n_threads := if 8 <? n_threads then 8 else n_threads in
  {| n_threads := n_threads;
     language := "en";
     translate := false;
     print_realtime := false;
     print_progress := false;
     print_timestamps := false;
     print_special := false;
     no_context := true;
     single_segment := false;
     suppress_blank := true;
     suppress_nst := true;
     temperature := f32_zero;
     max_initial_ts := f32_one;
     length_penalty := f32_minus_one;
     wparams_other := wparams_other wparams |}.

(** The [for] loop of lines 82-94, started at index [i] with [result_pos].
    It returns the final [result_pos]. [fuel] bounds the number of
    iterations; [Z.to_nat n_segments] is enough when started at [0]
    (lemma [concat_segments_fuel] below). *)
Fixpoint concat_segments (ctx : whisper_context) (result : block)
    (result_size n_segments : Z) (fuel : nat) (i result_pos : Z) : M Z :=
  match fuel with
  | O => ret result_pos
  | S fuel' =>
      if i <? n_segments then
        text <- lib_get (Call_full_get_segment_text ctx i)
                  (whisper_full_get_segment_text ctx i) ;;
        match text with
        | Some text =>
            let text_len := wrap_int (Z.of_nat (strlen text)) in
            if wrap_int (wrap_int (result_pos + text_len) + 1) <? result_size
            then
              strcpy result result_pos text ;;
              concat_segments ctx result result_size n_segments fuel'
                (wrap_int (i + 1)) (wrap_int (result_pos + text_len))
            else
              printf "whisper_wrapper: result buffer too small\n" [] ;;
              ret result_pos
        | None =>
            concat_segments ctx result result_size n_segments fuel'
              (wrap_int (i + 1)) result_pos
        end
      else ret result_pos
  end.

Definition whisper_wrapper_full_transcribe
    (ctx : option whisper_context) (samples : option (list float32))
    (n_samples : Z) (result : option block) (result_size : Z) : M Z :=
  match ctx, samples, result with
  | Some ctx, Some samples, Some result =>
      if result_size <=? 0 then ret (-1)
      else
        wparams <- lib_get (Call_full_default_params WHISPER_SAMPLING_GREEDY)
                     (fun _ => whisper_full_default_params
                                 WHISPER_SAMPLING_GREEDY) ;;
        let wparams := configure wparams in
        lib_call (Call_reset_timings ctx)
          (fun s => (tt, whisper_reset_timings ctx s)) ;;
        r <- lib_call (Call_full ctx wparams samples n_samples)
               (whisper_full ctx wparams samples n_samples) ;;
        if negb (r =? 0) then
          printf "whisper_wrapper: failed to run whisper_full, error code: %d\n"
            [PInt r] ;;
          ret r
        else
          n_segments <- lib_get (Call_full_n_segments ctx)
                          (whisper_full_n_segments ctx) ;;
          if n_segments =? 0 then
            printf "whisper_wrapper: no segments found\n" [] ;;
            store result 0 nul ;;
            ret 0
          else
            result_pos <- concat_segments ctx result result_size n_segments
                            (Z.to_nat n_segments) 0 0 ;;
            store result result_pos nul ;;
            lib_call (Call_print_timings ctx)
              (fun s => (tt, whisper_print_timings ctx s)) ;;
            printf
              "whisper_wrapper: transcription completed, %d segments, result length: %d\n"
              [PInt n_segments; PInt result_pos] ;;
            ret 0
  | _, _, _ => ret (-1)
  end.

End Wrapper.

Arguments event : clear implicits.
Arguments world : clear implicits.
Arguments M : clear implicits.

(** ** Observations on a run *)

Section Observations.

Context {W : WhisperLibrary}.

Definition run_value {A} (r : A * world W * list (event W)) : A := fst (fst r).
Definition run_world {A} (r : A * world W * list (event W)) : world W :=
  snd (fst r).
Definition run_events {A} (r : A * world W * list (event W)) : list (event W) :=
  snd r.

(** An event that enters whisper.cpp. *)
Definition is_library_call (e : event W) : bool :=
  match e with
  | Printf _ _ | Store _ _ _ => false
  | _ => true
  end.

Definition library_calls (evs : list (event W)) : list (event W) :=
  filter is_library_call evs.

(** The parameters each [whisper_full] call of a trace received. *)
Fixpoint full_params_passed (evs : list (event W))
  : list (whisper_full_params wparams_rest) :=
  match evs with
  | [] => []
  | Call_full _ wparams _ _ :: rest => wparams :: full_params_passed rest
  | _ :: rest => full_params_passed rest
  end.

(** The context parameters each [whisper_init_from_file_with_params] call
    of a trace received. *)
Fixpoint context_params_passed (evs : list (event W))
  : list (whisper_context_params cparams_rest) :=
  match evs with
  | [] => []
  | Call_init_from_file_with_params _ cparams :: rest =>
      cparams :: context_params_passed rest
  | _ :: rest => context_params_passed rest
  end.

(** The strategies requested from [whisper_full_default_params]. *)
Fixpoint strategies_requested (evs : list (event W))
  : list whisper_sampling_strategy :=
  match evs with
  | [] => []
  | Call_full_default_params s :: rest => s :: strategies_requested rest
  | _ :: rest => strategies_requested rest
  end.

(** The line printed when a segment is refused (line 90). *)
Definition buffer_too_small : event W :=
  Printf "whisper_wrapper: result buffer too small\n" [].

(** [m] holds the bytes of [s] from offset [off] on. *)
Fixpoint holds (m : bytes) (off : Z) (s : string) : Prop :=
  match s with
  | EmptyString => True
  | String c rest => m off = c /\ holds m (off + 1) rest
  end.

(** The segment texts the library reports for indices [i], [i+1], ...,
    [count] of them. *)
Fixpoint texts_from (ctx : whisper_context) (s : whisper_state) (i : Z)
    (count : nat) : list (option string) :=
  match count with
  | O => []
  | S count' =>
      whisper_full_get_segment_text ctx i s :: texts_from ctx s (i + 1) count'
  end.

(** All segment texts of the last transcription, by ascending index. *)
Definition segment_texts (ctx : whisper_context) (s : whisper_state)
  : list (option string) :=
  texts_from ctx s 0 (Z.to_nat (whisper_full_n_segments ctx s)).

(** What [whisper_full] answers to the call of line 66, and the library
    state it leaves. *)
Definition full_outcome (ctx : whisper_context) (samples : list float32)
    (n_samples : Z) (w : world W) : Z * whisper_state :=
  whisper_full ctx
    (configure (whisper_full_default_params WHISPER_SAMPLING_GREEDY))
    samples n_samples (whisper_reset_timings ctx (lib w)).

(** What a run may do to memory: stores go to block [b] at offsets of
    [lo..hi], everything else is left as it was. *)
Definition store_within (b : block) (lo hi : Z) (e : event W) : Prop :=
  match e with
  | Store b' off _ => b' = b /\ lo <= off <= hi
  | _ => True
  end.

Record confined (b : block) (lo hi : Z) (w w' : world W)
    (evs : list (event W)) : Prop := {
  confined_lib : lib w' = lib w;
  confined_blocks : forall b', b' <> b -> heap w' b' = heap w b';
  confined_bytes : forall j, j < lo \/ hi < j -> heap w' b j = heap w b j;
  confined_stores : Forall (store_within b lo hi) evs
}.

End Observations.

(** Concatenation of the non-null texts, in list order. *)
Fixpoint joined (segs : list (option string)) : string :=
  match segs with
  | [] => EmptyString
  | None :: rest => joined rest
  | Some t :: rest => (c_str t ++ joined rest)%string
  end.

Definition joined_length (segs : list (option string)) : Z :=
  Z.of_nat (String.length (joined segs)).

(** The guard of line 86 in exact arithmetic: how many leading segments the
    loop passes before it breaks, when it starts with [pos] bytes copied. *)
Fixpoint segments_kept (size pos : Z) (segs : list (option string)) : nat :=
  match segs with
  | [] => O
  | None :: rest => S (segments_kept size pos rest)
  | Some t :: rest =>
      if pos + Z.of_nat (strlen t) + 1 <? size
      then S (segments_kept size (pos + Z.of_nat (strlen t)) rest)
      else O
  end.

(** The additions of line 86 stay inside [int] at every segment the loop
    examines. *)
Fixpoint no_overflow (size pos : Z) (segs : list (option string)) : Prop :=
  match segs with
  | [] => True
  | None :: rest => no_overflow size pos rest
  | Some t :: rest =>
      pos + Z.of_nat (strlen t) + 1 <= INT_MAX /\
      (pos + Z.of_nat (strlen t) + 1 < size ->
       no_overflow size (pos + Z.of_nat (strlen t)) rest)
  end.

(** Every segment text is shorter than [2^31 - size] bytes: a bound on the
    library's texts alone under which nothing overflows. *)
Definition lengths_representable (size : Z) (segs : list (option string))
  : Prop :=
  forall t, In (Some t) segs -> Z.of_nat (strlen t) + size <= INT_MAX.

(** [n] copies of [c]. *)
Fixpoint replicate (n : nat) (c : ascii) : string :=
  match n with
  | O => EmptyString
  | S n' => String c (replicate n' c)
  end.


(** A segment text of [INT_MAX] bytes. *)
Definition huge_text : string := replicate (Z.to_nat INT_MAX) "a".

(** ** A scripted library, for running the wrapper on concrete inputs *)

Module Mock.

(** [decoded]: the segments the next successful [whisper_full] produces;
    [code]: what that call returns; [segments]: the segments of the last
    successful call; [model]: the only model file that loads. *)
Record state := {
  model : string;
  code : Z;
  decoded : list (option string);
  segments : list (option string)
}.

Definition init_from_file (path : option string)
    (cparams : whisper_context_params unit) (st : state)
  : option nat * state :=
  match path with
  | Some p => if String.eqb p (model st) then (Some 1%nat, st) else (None, st)
  | None => (None, st)
  end.

Definition full (ctx : nat)
    (wparams : whisper_full_params whisper_sampling_strategy)
    (samples : list float32) (n_samples : Z) (st : state) : Z * state :=
  if wrap_int (code st) =? 0 then
    (0, {| model := model st; code := code st; decoded := decoded st;
           segments := decoded st |})
  else (wrap_int (code st), st).

Definition n_segments (ctx : nat) (st : state) : Z :=
  wrap_int (Z.of_nat (List.length (segments st))).

Definition get_segment_text (ctx : nat) (i : Z) (st : state) : option string :=
  if i <? 0 then None else nth (Z.to_nat i) (segments st) None.

Definition default_params (s : whisper_sampling_strategy)
  : whisper_full_params whisper_sampling_strategy :=
  {| n_threads := 1; language := "auto"; translate := true;
     print_realtime := true; print_progress := true;
     print_timestamps := true; print_special := true;
     no_context := false; single_segment := true;
     suppress_blank := false; suppress_nst := false;
     temperature := f32_one; max_initial_ts := f32_zero;
     length_penalty := f32_zero; wparams_other := s |}.

Lemma full_int c p a n s : in_int (fst (full c p a n s)).
Proof.
  unfold full. destruct (wrap_int (code s) =? 0); simpl.
  - unfold in_int, INT_MIN, INT_MAX. lia.
  - apply wrap_int_range.
Qed.

#[export] Instance library : WhisperLibrary := {|
  whisper_context := nat;
  whisper_state := state;
  cparams_rest := unit;
  wparams_rest := whisper_sampling_strategy;
  whisper_context_default_params := {| use_gpu := false; cparams_other := tt |};
  whisper_init_from_file_with_params := init_from_file;
  whisper_free := fun _ st => st;
  whisper_full_default_params := default_params;
  whisper_reset_timings := fun _ st => st;
  whisper_print_timings := fun _ st => st;
  whisper_full := full;
  whisper_full_n_segments := n_segments;
  whisper_full_get_segment_text := get_segment_text;
  whisper_full_int := full_int;
  whisper_full_n_segments_int := fun _ _ => wrap_int_range _
|}.

(** A library that decodes [segs] with return code [rc]. *)
Definition scripted (rc : Z) (segs : list (option string)) : state :=
  {| model := "ggml-base.en.bin"; code := rc; decoded := segs; segments := [] |}.

(** A world whose buffers are filled with ['x']. *)
Definition fresh (st : state) : world library :=
  {| lib := st; heap := fun _ _ => "x"%char |}.

Definition transcribe (rc : Z) (segs : list (option string)) (size : Z) :=
  whisper_wrapper_full_transcribe (Some 1%nat) (Some [f32_zero; f32_one]) 2
    (Some 0%nat) size (fresh (scripted rc segs)).

Definition result_string (r : Z * world library * list (event library))
    (size : Z) : option string :=
  load_cstring (heap (run_world r) 0%nat) 0 (Z.to_nat size).

End Mock.

(** Runs of the wrapper against the scripted library. *)

Example transcribe_two_segments :
  let r := Mock.transcribe 0 [Some "Hello,"; None; Some " world."]%string 32 in
  run_value r = 0 /\ Mock.result_string r 32 = Some "Hello, world."%string.
Proof. vm_compute. split; reflexivity. Qed.

Example transcribe_exact_fit_is_dropped :
  let r := Mock.transcribe 0 [Some "abc"]%string 4 in
  run_value r = 0 /\ Mock.result_string r 4 = Some ""%string.
Proof. vm_compute. split; reflexivity. Qed.

Example transcribe_passes_fixed_parameters :
  let evs := run_events (Mock.transcribe 0 [Some "abc"]%string 16) in
  full_params_passed evs =
    [configure (W := Mock.library)
       (Mock.default_params WHISPER_SAMPLING_GREEDY)] /\
  strategies_requested evs = [WHISPER_SAMPLING_GREEDY].
Proof. vm_compute. split; reflexivity. Qed.

Example init_from_file_loads_and_fails :
  let w := Mock.fresh (Mock.scripted 0 []) in
  run_value (whisper_wrapper_init_from_file (W := Mock.library)
               (Some "ggml-base.en.bin"%string) w) = Some 1%nat /\
  run_value (whisper_wrapper_init_from_file (W := Mock.library)
               (Some "missing.bin"%string) w) = None /\
  context_params_passed
    (run_events (whisper_wrapper_init_from_file (W := Mock.library)
                   (Some "missing.bin"%string) w)) =
    [{| use_gpu := true; cparams_other := tt |}].
Proof. vm_compute. repeat split; reflexivity. Qed.

Example transcribe_error_code :
  run_value (Mock.transcribe (-7) [Some "abc"]%string 4) = -7.
Proof. vm_compute. reflexivity. Qed.

(** ** Reading strings back from memory *)

Lemma holds_ext (m m' : bytes) (s : string) : forall off,
  (forall j, off <= j < off + Z.of_nat (String.length s) -> m' j = m j) ->
  holds m off s -> holds m' off s.
Proof.
  induction s as [|c rest IH]; simpl; intros off Hsame H; [exact I|].
  destruct H as [Hc Hrest]. split.
  - rewrite Hsame by lia. exact Hc.
  - apply IH; [|exact Hrest]. intros j Hj. apply Hsame. lia.
Qed.

Lemma holds_append (m : bytes) (a b : string) : forall off,
  holds m off a -> holds m (off + Z.of_nat (String.length a)) b ->
  holds m off (a ++ b).
Proof.
  induction a as [|c a IH]; simpl; intros off Ha Hb.
  - replace (off + 0) with off in Hb by lia. exact Hb.
  - destruct Ha as [Hc Ha]. split; [exact Hc|].
    apply IH; [exact Ha|].
    replace (off + 1 + Z.of_nat (String.length a))
      with (off + Z.pos (Pos.of_succ_nat (String.length a))) by lia.
    exact Hb.
Qed.

Lemma load_cstring_holds (m : bytes) (s : string) : forall off fuel,
  holds m off s -> nul_free s ->
  m (off + Z.of_nat (String.length s)) = nul ->
  (String.length s < fuel)%nat ->
  load_cstring m off fuel = Some s.
Proof.
  induction s as [|c rest IH]; simpl; intros off fuel Hh Hn Hz Hf.
  - destruct fuel as [|fuel]; [lia|]. simpl.
    replace (off + 0) with off in Hz by lia. rewrite Hz. reflexivity.
  - destruct fuel as [|fuel]; [lia|]. simpl.
    destruct Hh as [Hc Hh]. destruct Hn as [Hnc Hn].
    rewrite Hc, Hnc. rewrite (IH (off + 1) fuel); try assumption.
    + reflexivity.
    + replace (off + 1 + Z.of_nat (String.length rest))
        with (off + Z.pos (Pos.of_succ_nat (String.length rest))) by lia.
      exact Hz.
    + lia.
Qed.

Lemma strlen_replicate n c : is_nul c = false -> strlen (replicate n c) = n.
Proof.
  intros Hc. induction n as [|n IH]; simpl; [reflexivity|].
  rewrite Hc, IH. reflexivity.
Qed.

Lemma nul_free_joined segs : nul_free (joined segs).
Proof.
  induction segs as [|[t|] segs IH]; simpl; [exact I| |exact IH].
  apply nul_free_append; [apply nul_free_c_str|exact IH].
Qed.

(** ** The monad and the copy primitives *)

Section Primitives.

Context {W : WhisperLibrary}.

Lemma run_value_bind {A B} (m : M W A) (f : A -> M W B) (w : world W) :
  run_value (bind m f w) = run_value (f (run_value (m w)) (run_world (m w))).
Proof.
  unfold bind, run_value, run_world. destruct (m w) as [[a w1] e1]. simpl.
  destruct (f a w1) as [[b w2] e2]. reflexivity.
Qed.

Lemma run_world_bind {A B} (m : M W A) (f : A -> M W B) (w : world W) :
  run_world (bind m f w) = run_world (f (run_value (m w)) (run_world (m w))).
Proof.
  unfold bind, run_value, run_world. destruct (m w) as [[a w1] e1]. simpl.
  destruct (f a w1) as [[b w2] e2]. reflexivity.
Qed.

Lemma run_events_bind {A B} (m : M W A) (f : A -> M W B) (w : world W) :
  run_events (bind m f w) =
  (run_events (m w) ++ run_events (f (run_value (m w)) (run_world (m w))))%list.
Proof.
  unfold bind, run_value, run_world, run_events.
  destruct (m w) as [[a w1] e1]. simpl.
  destruct (f a w1) as [[b w2] e2]. reflexivity.
Qed.

Lemma store_within_weaken b lo hi lo' hi' e :
  lo' <= lo -> hi <= hi' -> store_within b lo hi e -> store_within b lo' hi' e.
Proof. destruct e; simpl; auto. intros ? ? [? ?]. split; [assumption|lia]. Qed.

Lemma confined_refl b lo hi w : confined b lo hi w w [].
Proof. split; auto. Qed.

Lemma confined_trans b lo hi w w1 w2 e1 e2 :
  confined b lo hi w w1 e1 -> confined b lo hi w1 w2 e2 ->
  confined b lo hi w w2 (e1 ++ e2).
Proof.
  intros [L1 B1 Y1 S1] [L2 B2 Y2 S2]. split.
  - congruence.
  - intros b' Hb. rewrite B2, B1 by assumption. reflexivity.
  - intros j Hj. rewrite Y2, Y1 by assumption. reflexivity.
  - apply Forall_app. split; assumption.
Qed.

Lemma confined_weaken b lo hi lo' hi' w w' evs :
  lo' <= lo -> hi <= hi' ->
  confined b lo hi w w' evs -> confined b lo' hi' w w' evs.
Proof.
  intros Hlo Hhi [L B Y S]. split; auto.
  - intros j Hj. apply Y. lia.
  - eapply Forall_impl; [|exact S]. intros e.
    apply store_within_weaken; assumption.
Qed.

Lemma confined_silent b lo hi w e :
  store_within b lo hi e -> confined b lo hi w w [e].
Proof. intros He. split; auto. Qed.

Lemma store_confined b off c w :
  confined b off off w (run_world (store b off c w))
    (run_events (store b off c w)).
Proof.
  split; simpl.
  - reflexivity.
  - intros b' Hb. apply Nat.eqb_neq in Hb. rewrite Hb. reflexivity.
  - intros j Hj. rewrite Nat.eqb_refl. unfold update.
    destruct (Z.eqb_spec j off); [lia|reflexivity].
  - repeat constructor; lia.
Qed.

Lemma store_value b off c w :
  heap (run_world (store b off c w)) b off = c.
Proof. simpl. rewrite Nat.eqb_refl. unfold update. rewrite Z.eqb_refl. reflexivity. Qed.

(** [strcpy] writes the text of [src] and its terminator, and nothing
    outside the [strlen src + 1] bytes from [off]. *)
Lemma strcpy_spec b src : forall off w,
  let r := strcpy b off src w in
  confined b off (off + Z.of_nat (strlen src)) w (run_world r) (run_events r) /\
  holds (heap (run_world r) b) off (c_str src) /\
  heap (run_world r) b (off + Z.of_nat (strlen src)) = nul.
Proof.
  induction src as [|c rest IH]; intros off w; cbv zeta.
  - cbn [strcpy strlen c_str]. replace (off + Z.of_nat 0) with off by lia.
    split; [apply store_confined|]. split; [exact I|apply store_value].
  - cbn [strcpy strlen c_str]. destruct (is_nul c) eqn:Hc.
    + replace (off + Z.of_nat 0) with off by lia.
      split; [apply store_confined|]. split; [exact I|apply store_value].
    + rewrite run_world_bind, run_events_bind.
      set (w1 := run_world (store b off c w)).
      specialize (IH (off + 1) w1). cbv zeta in IH.
      destruct IH as [Hconf [Hholds Hnul]].
      replace (off + Z.of_nat (S (strlen rest)))
        with (off + 1 + Z.of_nat (strlen rest)) by lia.
      split; [|split].
      * eapply confined_trans.
        -- eapply confined_weaken; [| |apply store_confined]; lia.
        -- eapply confined_weaken; [| |exact Hconf]; lia.
      * simpl. split; [|exact Hholds].
        rewrite (confined_bytes _ _ _ _ _ _ Hconf) by lia.
        apply store_value.
      * exact Hnul.
Qed.

End Primitives.

(** ** The concatenation loop *)

Section Loop.

Context {W : WhisperLibrary}.
Variables (ctx : whisper_context) (result : block).
Variables (result_size n_segments : Z).
Hypothesis n_segments_int : in_int n_segments.

Lemma texts_from_lib s s' i count :
  s = s' -> texts_from ctx s i count = texts_from ctx s' i count.
Proof. intros ->. reflexivity. Qed.

(** As long as the lengths stay inside [int], the loop copies the texts of
    the leading [segments_kept] segments back to back, starting at
    [result_pos], and stores nowhere else. *)
Lemma concat_segments_spec : forall fuel i pos w,
  Z.of_nat fuel = n_segments - i -> 0 <= i ->
  0 <= pos < result_size ->
  let segs := texts_from ctx (lib w) i fuel in
  no_overflow result_size pos segs ->
  let str := joined (firstn (segments_kept result_size pos segs) segs) in
  let r := concat_segments ctx result result_size n_segments fuel i pos w in
  let pos' := pos + Z.of_nat (String.length str) in
  run_value r = pos' /\
  confined result pos pos' w (run_world r) (run_events r) /\
  holds (heap (run_world r) result) pos str /\
  (pos' = pos \/ pos' + 1 < result_size).
Proof.
  unfold in_int, INT_MIN, INT_MAX in *.
  induction fuel as [|fuel IH]; intros i pos w Hfuel Hi Hpos; cbv zeta.
  - intros _. cbn. replace (pos + 0) with pos by lia.
    split; [reflexivity|]. split; [apply confined_refl|]. auto.
  - cbn [texts_from concat_segments]. intros Hrep.
    destruct (Z.ltb_spec i n_segments) as [Hlt|Hge]; [|lia].
    rewrite run_value_bind, run_world_bind, run_events_bind.
    cbn [lib_get run_value run_world run_events fst snd].
    assert (Hnext : wrap_int (i + 1) = i + 1)
      by (apply wrap_int_id; unfold in_int, INT_MIN, INT_MAX; lia).
    rewrite Hnext.
    destruct (whisper_full_get_segment_text ctx i (lib w)) as [t|] eqn:Htext.
    + cbn [no_overflow] in Hrep. destruct Hrep as [Hlen Hrest].
      destruct (wrap_int_sum pos (Z.of_nat (strlen t))) as [Hw1 [Hw2 Hw3]];
        [lia|lia|exact Hlen|].
      rewrite Hw1, Hw2, Hw3. cbn [segments_kept].
      destruct (Z.ltb_spec (pos + Z.of_nat (strlen t) + 1) result_size)
        as [Hfit|Hnofit].
      * rewrite run_value_bind, run_world_bind, run_events_bind.
        destruct (strcpy_spec result t pos w) as [Hc1 [Hh1 Hz1]].
        set (w1 := run_world (strcpy result pos t w)) in *.
        set (e1 := run_events (strcpy result pos t w)) in *.
        assert (Hlib : lib w1 = lib w) by (apply (confined_lib _ _ _ _ _ _ Hc1)).
        rewrite <- (texts_from_lib _ _ (i + 1) fuel Hlib) in *.
        specialize (IH (i + 1) (pos + Z.of_nat (strlen t)) w1).
        cbv zeta in IH.
        destruct IH as [Hv [Hc2 [Hh2 Hend]]]; try lia.
        { apply Hrest. exact Hfit. }
        cbn [firstn joined]. rewrite length_append, strlen_c_str.
        set (rest := joined (firstn (segments_kept result_size
                       (pos + Z.of_nat (strlen t))
                       (texts_from ctx (lib w1) (i + 1) fuel))
                       (texts_from ctx (lib w1) (i + 1) fuel))) in *.
        replace (pos + Z.of_nat (strlen t + String.length rest))
          with (pos + Z.of_nat (strlen t) + Z.of_nat (String.length rest))
          by lia.
        split; [exact Hv|]. split; [|split].
        -- change (?a :: ?l ++ ?m)%list with ([a] ++ (l ++ m))%list.
           eapply confined_trans; [apply confined_silent; exact I|].
           eapply confined_trans.
           ++ eapply confined_weaken; [| |exact Hc1]; lia.
           ++ eapply confined_weaken; [| |exact Hc2]; lia.
        -- apply holds_append.
           ++ eapply holds_ext; [|exact Hh1]. intros j Hj.
              rewrite strlen_c_str in Hj.
              apply (confined_bytes _ _ _ _ _ _ Hc2). lia.
           ++ rewrite strlen_c_str. exact Hh2.
        -- right. lia.
      * cbn. replace (pos + 0) with pos by lia.
        split; [reflexivity|]. split; [|auto].
        split; auto. repeat constructor.
    + cbn [segments_kept firstn joined]. cbn [no_overflow] in Hrep.
      specialize (IH (i + 1) pos w). cbv zeta in IH.
      destruct IH as [Hv [Hc2 [Hh2 Hend]]]; try lia; try assumption.
      split; [exact Hv|]. split; [|split; assumption].
      change (?a :: ?l)%list with ([a] ++ l)%list.
      eapply confined_trans; [apply confined_silent; exact I|exact Hc2].
Qed.

(** When the loop refuses a segment it says so on standard output. *)
Lemma concat_segments_reports : forall fuel i pos w,
  Z.of_nat fuel = n_segments - i -> 0 <= i ->
  0 <= pos < result_size ->
  let segs := texts_from ctx (lib w) i fuel in
  no_overflow result_size pos segs ->
  (segments_kept result_size pos segs < List.length segs)%nat ->
  In buffer_too_small
    (run_events
       (concat_segments ctx result result_size n_segments fuel i pos w)).
Proof.
  unfold in_int, INT_MIN, INT_MAX in *.
  induction fuel as [|fuel IH]; intros i pos w Hfuel Hi Hpos; cbv zeta.
  - cbn. lia.
  - cbn [texts_from concat_segments]. intros Hrep Hkept.
    destruct (Z.ltb_spec i n_segments) as [Hlt|Hge]; [|lia].
    rewrite run_events_bind.
    cbn [lib_get run_value run_world run_events fst snd].
    assert (Hnext : wrap_int (i + 1) = i + 1)
      by (apply wrap_int_id; unfold in_int, INT_MIN, INT_MAX; lia).
    rewrite Hnext. right. cbn [app].
    destruct (whisper_full_get_segment_text ctx i (lib w)) as [t|] eqn:Htext.
    + cbn [no_overflow] in Hrep. destruct Hrep as [Hlen Hrest].
      destruct (wrap_int_sum pos (Z.of_nat (strlen t))) as [Hw1 [Hw2 Hw3]];
        [lia|lia|exact Hlen|].
      rewrite Hw1, Hw2, Hw3.
      cbn [segments_kept List.length] in Hkept.
      destruct (Z.ltb_spec (pos + Z.of_nat (strlen t) + 1) result_size)
        as [Hfit|Hnofit].
      * rewrite run_events_bind. apply in_or_app. right.
        destruct (strcpy_spec result t pos w) as [Hc1 _].
        assert (Hlib : lib (run_world (strcpy result pos t w)) = lib w)
          by (apply (confined_lib _ _ _ _ _ _ Hc1)).
        cbv beta. apply IH; try lia.
        -- rewrite (texts_from_lib _ _ (i + 1) fuel Hlib).
           apply Hrest. exact Hfit.
        -- rewrite (texts_from_lib _ _ (i + 1) fuel Hlib). lia.
      * cbn. left. reflexivity.
    + cbn [segments_kept List.length no_overflow] in *.
      apply IH; try lia. exact Hrep.
Qed.

End Loop.

(** Started at index [i], the loop needs no more than [n_segments - i]
    units of fuel: any surplus is never used, so the bound
    [Z.to_nat n_segments] of the wrapper does not cut the loop short. *)
Lemma concat_segments_fuel {W : WhisperLibrary} ctx result result_size
    n_segments (extra : nat) :
  in_int n_segments ->
  forall fuel i pos (w : world W),
    Z.of_nat fuel = n_segments - i -> 0 <= i ->
    concat_segments ctx result result_size n_segments (fuel + extra) i pos w =
    concat_segments ctx result result_size n_segments fuel i pos w.
Proof.
  intros Hn. unfold in_int, INT_MIN, INT_MAX in Hn.
  induction fuel as [|fuel IH]; intros i pos w Hfuel Hi.
  - cbn [Nat.add]. destruct extra as [|extra]; [reflexivity|].
    cbn [concat_segments].
    destruct (Z.ltb_spec i n_segments); [lia|reflexivity].
  - cbn [Nat.add concat_segments].
    destruct (Z.ltb_spec i n_segments) as [Hlt|]; [|reflexivity].
    assert (Hnext : wrap_int (i + 1) = i + 1)
      by (apply wrap_int_id; unfold in_int, INT_MIN, INT_MAX; lia).
    rewrite Hnext. unfold bind, lib_get. cbv beta iota.
    destruct (whisper_full_get_segment_text ctx i (lib w)) as [t|].
    + destruct (_ <? result_size); [|reflexivity].
      destruct (strcpy result pos t w) as [[u w1] e1].
      rewrite IH by lia. reflexivity.
    + rewrite IH by lia. reflexivity.
Qed.

(** ** The guard in the words of the specification *)

Lemma joined_empty_or_text segs :
  joined segs = EmptyString \/ exists t, In (Some t) segs.
Proof.
  induction segs as [|[t|] segs IH]; simpl.
  - left. reflexivity.
  - right. exists t. left. reflexivity.
  - destruct IH as [IH|[t Ht]]; [left; exact IH|right; exists t; right; exact Ht].
Qed.


(** Otherwise the loop stops at the first text that fails the guard. *)
Lemma segments_kept_stop size : forall segs pos,
  size <= pos + joined_length segs + 1 ->
  (exists t, In (Some t) segs) ->
  let k := segments_kept size pos segs in
  exists t,
    nth_error segs k = Some (Some t) /\
    size <= pos + joined_length (firstn k segs) + Z.of_nat (strlen t) + 1 /\
    forall j u, (j < k)%nat -> nth_error segs j = Some (Some u) ->
      pos + joined_length (firstn j segs) + Z.of_nat (strlen u) + 1 < size.
Proof.
  unfold joined_length.
  induction segs as [|[t|] segs IH]; intros pos Hsize Hsome; cbv zeta.
  - destruct Hsome as [t []].
  - cbn [segments_kept]. cbn [joined] in Hsize.
    rewrite length_append, strlen_c_str in Hsize.
    destruct (Z.ltb_spec (pos + Z.of_nat (strlen t) + 1) size) as [Hfit|Hno].
    + assert (Hrest : exists u, In (Some u) segs).
      { destruct (joined_empty_or_text segs) as [E|E]; [|exact E].
        rewrite E in Hsize. simpl in Hsize. lia. }
      destruct (IH (pos + Z.of_nat (strlen t))) as [u [Hk [Hstop Hbefore]]];
        [lia|exact Hrest|].
      exists u. cbn [nth_error firstn joined].
      rewrite length_append, strlen_c_str.
      split; [exact Hk|]. split; [lia|].
      intros [|j] v Hj Hv; cbn [nth_error firstn joined] in *.
      * injection Hv as <-. simpl. lia.
      * rewrite length_append, strlen_c_str.
        specialize (Hbefore j v ltac:(lia) Hv). lia.
    + exists t. cbn. split; [reflexivity|]. split; [lia|].
      intros j u Hj. lia.
  - cbn [segments_kept nth_error firstn joined]. cbn [joined] in Hsize.
    assert (Hrest : exists u, In (Some u) segs).
    { destruct Hsome as [u [Hu|Hu]]; [discriminate|exists u; exact Hu]. }
    destruct (IH pos Hsize Hrest) as [u [Hk [Hstop Hbefore]]].
    exists u. split; [exact Hk|]. split; [exact Hstop|].
    intros [|j] v Hj Hv; cbn [nth_error firstn joined] in *.
    + discriminate.
    + apply Hbefore; [lia|exact Hv].
Qed.

Lemma strlen_le_joined segs t :
  In (Some t) segs -> Z.of_nat (strlen t) <= joined_length segs.
Proof.
  unfold joined_length.
  induction segs as [|[u|] segs IH]; simpl; intros H.
  - destruct H.
  - rewrite length_append, strlen_c_str.
    destruct H as [H|H]; [injection H as ->; lia|].
    specialize (IH H). lia.
  - destruct H as [H|H]; [discriminate|]. exact (IH H).
Qed.

Lemma no_overflow_representable size : forall segs pos,
  0 <= pos < size -> lengths_representable size segs ->
  no_overflow size pos segs.
Proof.
  unfold lengths_representable.
  induction segs as [|[t|] segs IH]; simpl; intros pos Hpos Hrep.
  - exact I.
  - assert (Ht : Z.of_nat (strlen t) + size <= INT_MAX) by (apply Hrep; auto).
    split; [lia|]. intros Hfit. apply IH; [lia|]. intros u Hu. apply Hrep. auto.
  - apply IH; [exact Hpos|]. intros u Hu. apply Hrep. auto.
Qed.


(** ** The transcription call *)

Section Transcription.

Context {W : WhisperLibrary}.

Lemma texts_from_length ctx s : forall count i,
  List.length (texts_from ctx s i count) = count.
Proof. induction count as [|count IH]; simpl; intros i; [|rewrite IH]; reflexivity. Qed.

Lemma lib_call_value {A} e (f : whisper_state -> A * whisper_state) w :
  run_value (lib_call e f w) = fst (f (lib w)).
Proof. unfold lib_call, run_value. destruct (f (lib w)). reflexivity. Qed.

Lemma lib_call_world {A} e (f : whisper_state -> A * whisper_state) w :
  run_world (lib_call e f w) = {| lib := snd (f (lib w)); heap := heap w |}.
Proof. unfold lib_call, run_world. destruct (f (lib w)). reflexivity. Qed.

Lemma lib_call_events {A} e (f : whisper_state -> A * whisper_state) w :
  run_events (lib_call e f w) = [e].
Proof. unfold lib_call, run_events. destruct (f (lib w)). reflexivity. Qed.

End Transcription.

(** Runs the binds of a computation whose head is known. *)
Ltac step_run :=
  repeat (rewrite ?run_value_bind, ?run_world_bind, ?run_events_bind,
            ?lib_call_value, ?lib_call_world, ?lib_call_events;
          cbn [lib_get printf emit ret run_value run_world run_events
               fst snd lib heap]).

Section Correctness.

Context {W : WhisperLibrary}.

(** The successful path: the buffer ends up holding the texts of the
    segments the guard let through, and every store lies inside them or
    on their terminator. *)
Lemma transcribe_spec ctx samples n_samples result result_size w :
  0 < result_size ->
  let out := full_outcome ctx samples n_samples w in
  fst out = 0 ->
  let segs := segment_texts ctx (snd out) in
  no_overflow result_size 0 segs ->
  let str := joined (firstn (segments_kept result_size 0 segs) segs) in
  let r := whisper_wrapper_full_transcribe (Some ctx) (Some samples) n_samples
             (Some result) result_size w in
  run_value r = 0 /\
  load_cstring (heap (run_world r) result) 0 (Z.to_nat result_size) = Some str /\
  Forall (store_within result 0 (Z.of_nat (String.length str))) (run_events r) /\
  Z.of_nat (String.length str) < result_size.
Proof.
  intros Hpos out Hok segs Hrep str r.
  subst r. unfold whisper_wrapper_full_transcribe.
  destruct (Z.leb_spec result_size 0) as [|_]; [lia|].
  step_run.
  fold (full_outcome ctx samples n_samples w). fold out.
  rewrite Hok. cbn [Z.eqb negb]. step_run.
  set (w0 := {| lib := snd out; heap := heap w |}).
  set (n := whisper_full_n_segments ctx (snd out)) in *.
  assert (Hsegs : segs = texts_from ctx (lib w0) 0 (Z.to_nat n)) by reflexivity.
  destruct (Z.eqb_spec n 0) as [Hn0|Hn0].
  - step_run.
    assert (Hstr : str = EmptyString).
    { subst str. rewrite Hsegs, Hn0. reflexivity. }
    rewrite Hstr. cbn [String.length Z.of_nat].
    split; [reflexivity|]. split; [|split; [|lia]].
    + destruct (Z.to_nat result_size) as [|f] eqn:Hf; [lia|].
      cbn [load_cstring]. rewrite store_value. reflexivity.
    + cbn. repeat constructor; lia.
  - step_run.
    set (loop := concat_segments ctx result result_size n (Z.to_nat n) 0 0 w0).
    set (len := Z.of_nat (String.length str)).
    assert (Hloop : run_value loop = len /\
                    confined result 0 len w0 (run_world loop) (run_events loop) /\
                    holds (heap (run_world loop) result) 0 str /\
                    (len = 0 \/ len + 1 < result_size)).
    { destruct (Z.ltb_spec n 0) as [Hneg|Hnonneg].
      - assert (Hfuel : Z.to_nat n = O) by lia.
        subst loop len str. rewrite Hsegs, Hfuel. cbn.
        split; [reflexivity|]. split; [apply confined_refl|]. auto.
      - subst loop len str. rewrite Hsegs.
        apply (concat_segments_spec ctx result result_size n
                 (whisper_full_n_segments_int ctx (snd out))
                 (Z.to_nat n) 0 0 w0); try lia.
        rewrite <- Hsegs. exact Hrep. }
    destruct Hloop as [Hv [Hconf [Hholds Hend]]].
    rewrite Hv.
    assert (Hlen : 0 <= len < result_size) by (subst len; lia).
    split; [reflexivity|]. split; [|split; [|lia]].
    + apply load_cstring_holds.
      * eapply holds_ext; [|exact Hholds]. intros j Hj.
        apply (confined_bytes _ _ _ _ _ _ (store_confined result len nul _)).
        fold len in Hj. lia.
      * apply nul_free_joined.
      * fold len. cbn [Z.add]. apply store_value.
      * fold len in Hlen. lia.
    + repeat (apply Forall_app; split); try (repeat constructor; fail).
      * exact (confined_stores _ _ _ _ _ _ Hconf).
      * cbn. repeat constructor; lia.
Qed.

(** A refused segment leaves its line in the trace of the call. *)
Lemma transcribe_reports ctx samples n_samples result result_size w :
  0 < result_size ->
  let out := full_outcome ctx samples n_samples w in
  fst out = 0 ->
  let segs := segment_texts ctx (snd out) in
  no_overflow result_size 0 segs ->
  (segments_kept result_size 0 segs < List.length segs)%nat ->
  In buffer_too_small
    (run_events
       (whisper_wrapper_full_transcribe (Some ctx) (Some samples) n_samples
          (Some result) result_size w)).
Proof.
  intros Hpos out Hok segs Hno Hkept.
  unfold whisper_wrapper_full_transcribe.
  destruct (Z.leb_spec result_size 0) as [|_]; [lia|].
  step_run.
  fold (full_outcome ctx samples n_samples w). fold out.
  rewrite Hok. cbn [Z.eqb negb]. step_run.
  set (w0 := {| lib := snd out; heap := heap w |}).
  set (n := whisper_full_n_segments ctx (snd out)) in *.
  assert (Hsegs : segs = texts_from ctx (lib w0) 0 (Z.to_nat n)) by reflexivity.
  assert (Hcount : List.length segs = Z.to_nat n) by apply texts_from_length.
  destruct (Z.eqb_spec n 0) as [Hn0|Hn0]; [rewrite Hn0 in Hcount; cbn in Hcount; lia|].
  step_run. do 4 (apply in_or_app; right). apply in_or_app. left.
  apply (concat_segments_reports ctx result result_size n
           (whisper_full_n_segments_int ctx (snd out))
           (Z.to_nat n) 0 0 w0); try lia.
  - rewrite <- Hsegs. exact Hno.
  - rewrite <- Hsegs. lia.
Qed.

(** The failing path: the code of [whisper_full] comes back as it is, and
    the buffer is not touched. *)
Lemma transcribe_failure ctx samples n_samples result result_size w :
  0 < result_size ->
  let out := full_outcome ctx samples n_samples w in
  fst out <> 0 ->
  let r := whisper_wrapper_full_transcribe (Some ctx) (Some samples) n_samples
             (Some result) result_size w in
  run_value r = fst out /\
  heap (run_world r) = heap w /\
  run_events r =
    [Call_full_default_params WHISPER_SAMPLING_GREEDY;
     Call_reset_timings ctx;
     Call_full ctx
       (configure (whisper_full_default_params WHISPER_SAMPLING_GREEDY))
       samples n_samples;
     Printf "whisper_wrapper: failed to run whisper_full, error code: %d\n"
       [PInt (fst out)]].
Proof.
  intros Hpos out Hbad r. subst r. unfold whisper_wrapper_full_transcribe.
  destruct (Z.leb_spec result_size 0) as [|_]; [lia|].
  step_run. fold (full_outcome ctx samples n_samples w). fold out.
  destruct (Z.eqb_spec (fst out) 0) as [|_]; [contradiction|].
  cbn [negb]. step_run. auto.
Qed.

(** Once validation has passed, the first three events are the calls of
    lines 40, 63 and 66. *)
Lemma transcribe_enters_library ctx samples n_samples result result_size w :
  0 < result_size ->
  firstn 3 (run_events
              (whisper_wrapper_full_transcribe (Some ctx) (Some samples)
                 n_samples (Some result) result_size w)) =
    [Call_full_default_params WHISPER_SAMPLING_GREEDY;
     Call_reset_timings ctx;
     Call_full ctx
       (configure (whisper_full_default_params WHISPER_SAMPLING_GREEDY))
       samples n_samples].
Proof.
  intros Hpos. unfold whisper_wrapper_full_transcribe.
  destruct (Z.leb_spec result_size 0) as [|_]; [lia|].
  step_run. reflexivity.
Qed.

Lemma full_params_passed_app (a b : list (event W)) :
  full_params_passed (a ++ b) = (full_params_passed a ++ full_params_passed b)%list.
Proof.
  induction a as [|e a IH]; [reflexivity|].
  destruct e; cbn [app full_params_passed]; rewrite IH; reflexivity.
Qed.

Lemma strategies_requested_app (a b : list (event W)) :
  strategies_requested (a ++ b) =
  (strategies_requested a ++ strategies_requested b)%list.
Proof.
  induction a as [|e a IH]; [reflexivity|].
  destruct e; cbn [app strategies_requested]; rewrite IH; reflexivity.
Qed.

(** Neither [strcpy] nor the copy loop calls [whisper_full] or asks for
    default parameters. *)
Lemma strcpy_calls result : forall t off w,
  full_params_passed (run_events (strcpy result off t w)) = [] /\
  strategies_requested (run_events (strcpy result off t w)) = [].
Proof.
  induction t as [|c t IH]; intros off w; cbn [strcpy].
  - split; reflexivity.
  - destruct (is_nul c); [split; reflexivity|].
    rewrite run_events_bind, full_params_passed_app, strategies_requested_app.
    destruct (IH (off + 1) (run_world (store result off c w))) as [-> ->].
    split; reflexivity.
Qed.

Lemma concat_segments_calls ctx result result_size n_segments :
  forall fuel i pos w,
  let evs := run_events
               (concat_segments ctx result result_size n_segments fuel i pos w) in
  full_params_passed evs = [] /\ strategies_requested evs = [].
Proof.
  induction fuel as [|fuel IH]; intros i pos w; cbv zeta.
  - split; reflexivity.
  - cbn [concat_segments]. destruct (i <? n_segments); [|split; reflexivity].
    step_run. rewrite full_params_passed_app, strategies_requested_app.
    cbn [app full_params_passed strategies_requested].
    destruct (whisper_full_get_segment_text ctx i (lib w)) as [t|].
    + destruct (_ <? result_size).
      * step_run. rewrite full_params_passed_app, strategies_requested_app.
        destruct (strcpy_calls result t pos w) as [-> ->].
        apply IH.
      * step_run. split; reflexivity.
    + apply IH.
Qed.

(** A call that passes validation hands [whisper_full] its parameters
    once, built from the defaults requested for greedy sampling. *)
Lemma transcribe_params ctx samples n_samples result result_size w :
  0 < result_size ->
  let evs := run_events
               (whisper_wrapper_full_transcribe (Some ctx) (Some samples)
                  n_samples (Some result) result_size w) in
  full_params_passed evs =
    [configure (whisper_full_default_params WHISPER_SAMPLING_GREEDY)] /\
  strategies_requested evs = [WHISPER_SAMPLING_GREEDY].
Proof.
  intros Hpos. cbv zeta. unfold whisper_wrapper_full_transcribe.
  destruct (Z.leb_spec result_size 0) as [|_]; [lia|].
  step_run. fold (full_outcome ctx samples n_samples w).
  rewrite !full_params_passed_app, !strategies_requested_app.
  cbn [app full_params_passed strategies_requested].
  destruct (negb (fst (full_outcome ctx samples n_samples w) =? 0)).
  - step_run. split; reflexivity.
  - step_run. rewrite !full_params_passed_app, !strategies_requested_app.
    cbn [app full_params_passed strategies_requested].
    destruct (_ =? 0).
    + step_run. split; reflexivity.
    + step_run. rewrite !full_params_passed_app, !strategies_requested_app.
      match goal with
      | |- context [concat_segments ?c ?b ?s ?n ?f ?i ?p ?w0] =>
          destruct (concat_segments_calls c b s n f i p w0) as [-> ->]
      end.
      split; reflexivity.
Qed.

(** A call that fails validation does nothing at all. *)
Lemma transcribe_invalid ctx samples n_samples result result_size w :
  ctx = None \/ samples = None \/ result = None \/ result_size <= 0 ->
  whisper_wrapper_full_transcribe ctx samples n_samples result result_size w =
  (-1, w, []).
Proof.
  intros H. unfold whisper_wrapper_full_transcribe.
  destruct ctx as [c|]; [|reflexivity].
  destruct samples as [a|]; [|reflexivity].
  destruct result as [b|]; [|reflexivity].
  destruct H as [H|[H|[H|H]]]; try discriminate.
  destruct (Z.leb_spec result_size 0); [reflexivity|lia].
Qed.

(** ** The claims *)

(** C3: when the inputs pass validation, a nonzero code returned by
    [whisper_full] is returned by the wrapper unchanged, and the wrapper
    returns 0 exactly when [whisper_full] returned 0. *)
Theorem C3_return_code_propagated
    ctx samples n_samples result result_size (w : world W) :
  0 < result_size ->
  let code := fst (full_outcome ctx samples n_samples w) in
  let r := whisper_wrapper_full_transcribe (Some ctx) (Some samples) n_samples
             (Some result) result_size w in
  (code <> 0 -> run_value r = code) /\ (run_value r = 0 <-> code = 0).
Proof.
  intros Hpos code r.
  assert (Hv : run_value r = code).
  { destruct (Z.eq_dec code 0) as [Hz|Hnz].
    - subst r. unfold whisper_wrapper_full_transcribe.
      destruct (Z.leb_spec result_size 0) as [|_]; [lia|].
      step_run. fold (full_outcome ctx samples n_samples w). fold code.
      rewrite Hz. cbn [Z.eqb negb]. step_run.
      destruct (_ =? 0); step_run; reflexivity.
    - apply (transcribe_failure ctx samples n_samples result result_size w Hpos Hnz). }
  rewrite Hv. split; [reflexivity|tauto].
Qed.

(** C4: the wrapper returns -1 without any call into the library whenever
    [ctx], [samples] or [result] is NULL or [result_size <= 0]; on every
    other input the validation branch is not taken and the library is
    entered. *)
Theorem C4_validation
    ctx samples n_samples result result_size (w : world W) :
  let r := whisper_wrapper_full_transcribe ctx samples n_samples result
             result_size w in
  (ctx = None \/ samples = None \/ result = None \/ result_size <= 0 ->
   run_value r = -1 /\ library_calls (run_events r) = [] /\
   run_events r = [] /\ run_world r = w) /\
  (~ (ctx = None \/ samples = None \/ result = None \/ result_size <= 0) ->
   exists c a b,
     ctx = Some c /\ samples = Some a /\ result = Some b /\
     firstn 3 (run_events r) =
       [Call_full_default_params WHISPER_SAMPLING_GREEDY;
        Call_reset_timings c;
        Call_full c
          (configure (whisper_full_default_params WHISPER_SAMPLING_GREEDY))
          a n_samples]).
Proof.
  intros r. split.
  - intros Hbad. subst r. rewrite transcribe_invalid by exact Hbad.
    repeat split; reflexivity.
  - intros Hgood.
    destruct ctx as [c|]; [|exfalso; apply Hgood; auto].
    destruct samples as [a|]; [|exfalso; apply Hgood; auto].
    destruct result as [b|]; [|exfalso; apply Hgood; auto].
    exists c, a, b. repeat split.
    apply transcribe_enters_library. lia.
Qed.


(** C6: [whisper_wrapper_init_from_file] returns NULL exactly when the
    library's init-from-file call returns NULL, and otherwise the context
    pointer the library produced. *)
Theorem C6_init_result path_model (w : world W) :
  let answer :=
    fst (whisper_init_from_file_with_params path_model
           {| use_gpu := true;
              cparams_other := cparams_other whisper_context_default_params |}
           (lib w)) in
  let r := whisper_wrapper_init_from_file path_model w in
  (run_value r = None <-> answer = None) /\ run_value r = answer.
Proof.
  intros answer r.
  assert (Hv : run_value r = answer).
  { subst r answer. unfold whisper_wrapper_init_from_file. step_run.
    destruct (fst _); step_run; reflexivity. }
  rewrite Hv. split; [tauto|reflexivity].
Qed.


(** C7, amended: when some segment text does not pass the guard of line 86
    (the length copied so far, plus its own length, plus one, must stay
    strictly below [result_size]) and every segment text is shorter than
    [2^31 - result_size] bytes, the wrapper stops at the first such segment
    [k], leaves in [result] the null-terminated concatenation of the
    non-null texts among the first [k] whole segments, with [k] below the
    segment count, prints its "result buffer too small" line and
    returns 0. *)
Theorem C7_truncation
    ctx samples n_samples result result_size (w : world W) :
  0 < result_size ->
  let out := full_outcome ctx samples n_samples w in
  fst out = 0 ->
  let segs := segment_texts ctx (snd out) in
  lengths_representable result_size segs ->
  result_size <= joined_length segs + 1 ->
  (exists t, In (Some t) segs) ->
  let r := whisper_wrapper_full_transcribe (Some ctx) (Some samples) n_samples
             (Some result) result_size w in
  exists k t,
    Z.of_nat k < whisper_full_n_segments ctx (snd out) /\
    nth_error segs k = Some (Some t) /\
    result_size <= joined_length (firstn k segs) + Z.of_nat (strlen t) + 1 /\
    (forall j u, (j < k)%nat -> nth_error segs j = Some (Some u) ->
       joined_length (firstn j segs) + Z.of_nat (strlen u) + 1 < result_size) /\
    run_value r = 0 /\
    load_cstring (heap (run_world r) result) 0 (Z.to_nat result_size) =
      Some (joined (firstn k segs)) /\
    In buffer_too_small (run_events r).
Proof.
  intros Hpos out Hok segs Hrep Hsmall Hsome r.
  assert (Hno : no_overflow result_size 0 segs)
    by (apply no_overflow_representable; [lia|exact Hrep]).
  destruct (transcribe_spec ctx samples n_samples result result_size w
              Hpos Hok Hno) as [Hv [Hload _]].
  fold out in Hload. fold segs in Hload.
  destruct (segments_kept_stop result_size segs 0) as [t [Hk [Hstop Hbefore]]];
    [lia|exact Hsome|].
  assert (Hlt : (segments_kept result_size 0 segs < List.length segs)%nat).
  { apply nth_error_Some. rewrite Hk. discriminate. }
  exists (segments_kept result_size 0 segs), t.
  split; [|split; [exact Hk|split; [lia|split; [|split; [exact Hv|split;
    [exact Hload|]]]]]].
  - assert (Hcount : List.length segs =
                     Z.to_nat (whisper_full_n_segments ctx (snd out)))
      by apply texts_from_length.
    lia.
  - intros j u Hj Hu. specialize (Hbefore j u Hj Hu). lia.
  - apply (transcribe_reports ctx samples n_samples result result_size w
             Hpos Hok Hno Hlt).
Qed.

(** As long as every segment text is shorter than [2^31 - result_size]
    bytes, every store of a call lands in [result] below [result_size], and
    a return of 0 leaves a null-terminated string of at most
    [result_size - 1] bytes there. *)
Lemma transcribe_within_bounds
    ctx samples n_samples result result_size (w : world W) :
  (forall c a, ctx = Some c -> samples = Some a ->
     fst (full_outcome c a n_samples w) = 0 ->
     lengths_representable result_size
       (segment_texts c (snd (full_outcome c a n_samples w)))) ->
  let r := whisper_wrapper_full_transcribe ctx samples n_samples result
             result_size w in
  (forall b off c, In (Store b off c) (run_events r) ->
     result = Some b /\ 0 <= off < result_size) /\
  (forall b, result = Some b -> run_value r = 0 ->
     exists s,
       load_cstring (heap (run_world r) b) 0 (Z.to_nat result_size) = Some s /\
       Z.of_nat (String.length s) <= result_size - 1).
Proof.
  intros Hrep r.
  destruct (Z.le_gt_cases result_size 0) as [Hle|Hgt];
    [subst r; rewrite transcribe_invalid by auto; split;
       [intros ? ? ? []|intros ? ?; discriminate]|].
  destruct ctx as [c|];
    [|subst r; rewrite transcribe_invalid by auto; split;
       [intros ? ? ? []|intros ? ?; discriminate]].
  destruct samples as [a|];
    [|subst r; rewrite transcribe_invalid by auto; split;
       [intros ? ? ? []|intros ? ?; discriminate]].
  destruct result as [b|];
    [|subst r; rewrite transcribe_invalid by auto; split;
       [intros ? ? ? []|intros ? ?; discriminate]].
  destruct (Z.eq_dec (fst (full_outcome c a n_samples w)) 0) as [Hok|Hbad].
  - specialize (Hrep c a eq_refl eq_refl Hok).
    assert (Hno : no_overflow result_size 0
                    (segment_texts c (snd (full_outcome c a n_samples w))))
      by (apply no_overflow_representable; [lia|exact Hrep]).
    destruct (transcribe_spec c a n_samples b result_size w
                ltac:(lia) Hok Hno) as [Hv [Hload [Hstores Hlen]]].
    fold r in Hv, Hload, Hstores. split.
    + intros b' off ch Hin.
      rewrite Forall_forall in Hstores. specialize (Hstores _ Hin).
      cbn in Hstores. destruct Hstores as [-> Hoff]. split; [reflexivity|lia].
    + intros b' Hb _. injection Hb as <-. eexists. split; [exact Hload|lia].
  - destruct (transcribe_failure c a n_samples b result_size w
                ltac:(lia) Hbad) as [Hv [_ Hevs]].
    fold r in Hv, Hevs. split.
    + intros b' off ch Hin. rewrite Hevs in Hin. cbn in Hin.
      repeat (destruct Hin as [Hin|Hin]; [discriminate|]). destruct Hin.
    + intros b' _ Hz. congruence.
Qed.

End Correctness.

(** ** Runs against the scripted library *)

(** [strcpy] stores at every offset up to the terminator's. *)
Lemma strcpy_stores {W : WhisperLibrary} b : forall t off (w : world W) j,
  (j <= strlen t)%nat ->
  exists c, In (Store b (off + Z.of_nat j) c) (run_events (strcpy b off t w)).
Proof.
  induction t as [|ch t IH]; intros off w j Hj; cbn [strcpy strlen] in *.
  - assert (j = O) by lia. subst j. exists nul.
    replace (off + Z.of_nat 0) with off by lia. left. reflexivity.
  - destruct (is_nul ch).
    + assert (j = O) by lia. subst j. exists nul.
      replace (off + Z.of_nat 0) with off by lia. left. reflexivity.
    + rewrite run_events_bind. destruct j as [|j].
      * exists ch. replace (off + Z.of_nat 0) with off by lia.
        apply in_or_app. left. left. reflexivity.
      * destruct (IH (off + 1) (run_world (store b off ch w)) j ltac:(lia))
          as [c Hc].
        exists c. apply in_or_app. right.
        replace (off + Z.of_nat (S j)) with (off + 1 + Z.of_nat j) by lia.
        exact Hc.
Qed.

(** A text of [INT_MAX] bytes makes the sum of line 86 wrap to a negative
    number, the guard passes, and [strcpy] runs over the whole text. *)
Lemma transcribe_overflow t j :
  Z.of_nat (strlen t) = INT_MAX -> (j <= strlen t)%nat ->
  exists c,
    In (Store 0%nat (Z.of_nat j) c)
      (run_events (Mock.transcribe 0 [Some t] 1)).
Proof.
  intros Hlen Hj.
  unfold Mock.transcribe, whisper_wrapper_full_transcribe.
  change (1 <=? 0) with false. cbv iota.
  step_run.
  change (@whisper_full Mock.library 1%nat _ _ 2 _)
    with (0, {| Mock.model := "ggml-base.en.bin"; Mock.code := 0;
                Mock.decoded := [Some t]; Mock.segments := [Some t] |}).
  cbn [fst snd Z.eqb negb]. step_run.
  change (@whisper_full_n_segments Mock.library 1%nat _) with 1.
  cbn [Z.eqb]. step_run.
  change (Z.to_nat 1) with 1%nat.
  cbn [concat_segments]. change (0 <? 1) with true. cbv iota.
  step_run.
  change (@whisper_full_get_segment_text Mock.library 1%nat 0 _) with (Some t).
  cbv iota. rewrite Hlen.
  change (wrap_int (wrap_int (0 + wrap_int INT_MAX) + 1) <? 1) with true.
  cbv iota. step_run.
  match goal with
  | |- context [strcpy 0%nat 0 t ?w0] =>
      destruct (strcpy_stores 0%nat t 0 w0 j Hj) as [c Hc]
  end.
  exists c. cbn [Z.add] in Hc.
  do 4 (apply in_or_app; right).
  apply in_or_app; left.
  apply in_or_app; right.
  apply in_or_app; left. exact Hc.
Qed.

Lemma strlen_huge_text : Z.of_nat (strlen huge_text) = INT_MAX.
Proof.
  unfold huge_text. rewrite strlen_replicate by reflexivity.
  apply Z2Nat.id. unfold INT_MAX. lia.
Qed.

(** C1, at a failing input: with [result_size = 1] and a single segment
    text of [INT_MAX] bytes, the wrapper stores into [result] at an offset
    that is not below [result_size]. *)
Theorem C1_store_beyond_result_size :
  let result_size := 1 in
  exists off c,
    In (Store 0%nat off c)
      (run_events (Mock.transcribe 0 [Some huge_text] result_size)) /\
    result_size <= off.
Proof.
  destruct (transcribe_overflow huge_text 1) as [c Hc].
  - exact strlen_huge_text.
  - pose proof strlen_huge_text as H. unfold INT_MAX in H. lia.
  - exists 1, c. split; [exact Hc|]. lia.
Qed.

Lemma C3_witness :
  0 < 4 /\
  let r := Mock.transcribe (-7) [Some "abc"%string] 4 in
  (-7 <> 0 -> run_value r = -7) /\ (run_value r = 0 <-> -7 = 0).
Proof.
  split; [reflexivity|].
  apply (C3_return_code_propagated (W := Mock.library) 1%nat
           [f32_zero; f32_one] 2 0%nat 4
           (Mock.fresh (Mock.scripted (-7) [Some "abc"%string]))).
  reflexivity.
Defined.

Lemma C4_witness :
  let w := Mock.fresh (Mock.scripted 0 [Some "abc"%string]) in
  let refused :=
    whisper_wrapper_full_transcribe (W := Mock.library)
      (Some 1%nat) (Some []) 0 (Some 0%nat) 0 w in
  let accepted :=
    whisper_wrapper_full_transcribe (W := Mock.library)
      (Some 1%nat) (Some []) 0 (Some 0%nat) 1 w in
  (run_value refused = -1 /\ library_calls (run_events refused) = []) /\
  library_calls (firstn 3 (run_events accepted)) <> [].
Proof.
  intros w refused accepted. split.
  - destruct (proj1 (C4_validation (W := Mock.library)
                       (Some 1%nat) (Some []) 0 (Some 0%nat) 0 w))
      as [Hv [Hc _]].
    + right. right. right. discriminate.
    + split; [exact Hv|exact Hc].
  - destruct (proj2 (C4_validation (W := Mock.library)
                       (Some 1%nat) (Some []) 0 (Some 0%nat) 1 w))
      as [c [a [b [_ [_ [_ Hevs]]]]]].
    + intros [H|[H|[H|H]]]; try discriminate. apply H. reflexivity.
    + fold accepted in Hevs. rewrite Hevs. discriminate.
Defined.



Lemma C7_witness :
  let segs := [Some "abc"; None; Some "defg"; Some "h"]%string in
  let r := Mock.transcribe 0 segs 8 in
  exists k,
    (k < 4)%nat /\ run_value r = 0 /\
    Mock.result_string r 8 = Some (joined (firstn k segs)).
Proof.
  intros segs r.
  destruct (C7_truncation (W := Mock.library) 1%nat [f32_zero; f32_one] 2
              0%nat 8 (Mock.fresh (Mock.scripted 0 segs)))
    as [k [t [Hk [_ [_ [_ [Hv [Hload _]]]]]]]].
  - reflexivity.
  - reflexivity.
  - intros t [Ht|[Ht|[Ht|[Ht|[]]]]]; inversion Ht; vm_compute; discriminate.
  - vm_compute. discriminate.
  - exists "abc"%string. left. reflexivity.
  - exists k. split; [|split; [exact Hv|exact Hload]].
    change (@whisper_full_n_segments Mock.library 1%nat _) with 4 in Hk. lia.
Defined.

(** C7 as stated fails: with four bytes and the texts "abc" and "d", the
    first text that does not fit with its terminator is the second one,
    yet the wrapper has already stopped at the first and leaves the empty
    string. *)
Lemma C7_counterexample :
  ~ (forall (W : WhisperLibrary) ctx samples n_samples result result_size
            (w : world W),
       0 < result_size -> in_int result_size ->
       let out := full_outcome ctx samples n_samples w in
       fst out = 0 ->
       let segs := segment_texts ctx (snd out) in
       result_size < joined_length segs + 1 ->
       let r := whisper_wrapper_full_transcribe (Some ctx) (Some samples)
                  n_samples (Some result) result_size w in
       exists k t,
         Z.of_nat k < whisper_full_n_segments ctx (snd out) /\
         nth_error segs k = Some (Some t) /\
         result_size <
           joined_length (firstn k segs) + Z.of_nat (strlen t) + 1 /\
         (forall j u, (j < k)%nat -> nth_error segs j = Some (Some u) ->
            joined_length (firstn j segs) + Z.of_nat (strlen u) + 1
              <= result_size) /\
         run_value r = 0 /\
         load_cstring (heap (run_world r) result) 0 (Z.to_nat result_size) =
           Some (joined (firstn k segs))).
Proof.
  intros H.
  pose proof (H Mock.library 1%nat [f32_zero; f32_one] 2 0%nat 4
                (Mock.fresh (Mock.scripted 0 [Some "abc"; Some "d"]%string)))
    as Hc.
  cbv zeta in Hc.
  assert (Hint : in_int 4) by (split; discriminate).
  destruct (Hc eq_refl Hint eq_refl eq_refl)
    as [k [t [_ [Hk [Hlate [_ [_ Hload]]]]]]].
  destruct k as [|[|k]].
  - vm_compute in Hk. injection Hk as <-. vm_compute in Hlate. discriminate.
  - vm_compute in Hload. discriminate.
  - vm_compute in Hk. destruct k; discriminate.
Qed.

(** * Further properties of the wrapper *)

(** ** What a trace shows *)

Section Traces.

Context {W : WhisperLibrary}.

(** The segment indices asked of [whisper_full_get_segment_text], in
    program order. *)
Definition segments_queried (evs : list (event W)) : list Z :=
  flat_map (fun e => match e with
                     | Call_full_get_segment_text _ i => [i]
                     | _ => []
                     end) evs.

(** The contexts handed to [whisper_free]. *)
Definition contexts_freed (evs : list (event W)) : list whisper_context :=
  flat_map (fun e => match e with Call_free c => [c] | _ => [] end) evs.

Definition is_timing_call (e : event W) : bool :=
  match e with
  | Call_reset_timings _ | Call_print_timings _ => true
  | _ => false
  end.

(** The calls to [whisper_reset_timings] and [whisper_print_timings]. *)
Definition timing_calls (evs : list (event W)) : list (event W) :=
  filter is_timing_call evs.

Definition is_printf (e : event W) : bool :=
  match e with
  | Printf _ _ => true
  | _ => false
  end.

(** The lines written to standard output. *)
Definition printed (evs : list (event W)) : list (event W) :=
  filter is_printf evs.

Definition is_store (e : event W) : bool :=
  match e with
  | Store _ _ _ => true
  | _ => false
  end.

(** The indices [i], [i+1], ..., [count] of them. *)
Definition indices (i : Z) (count : nat) : list Z :=
  map (fun j => i + Z.of_nat j) (seq 0 count).

(** The events the copy loop can emit. *)
Definition loop_event (e : event W) : Prop :=
  match e with
  | Call_full_get_segment_text _ _ | Store _ _ _ | Printf _ _ => True
  | _ => False
  end.

Lemma indices_cons i count : indices i (S count) = i :: indices (i + 1) count.
Proof.
  unfold indices. cbn [seq map]. f_equal; [lia|].
  rewrite <- seq_shift, map_map. apply map_ext. intros j. lia.
Qed.

Lemma segments_queried_app (a b : list (event W)) :
  segments_queried (a ++ b) = (segments_queried a ++ segments_queried b)%list.
Proof. apply flat_map_app. Qed.

Lemma printed_app (a b : list (event W)) :
  printed (a ++ b) = (printed a ++ printed b)%list.
Proof. apply filter_app. Qed.

Lemma timing_calls_app (a b : list (event W)) :
  timing_calls (a ++ b) = (timing_calls a ++ timing_calls b)%list.
Proof. apply filter_app. Qed.

Lemma timing_calls_loop_events (evs : list (event W)) :
  Forall loop_event evs -> timing_calls evs = [].
Proof.
  induction 1 as [|e evs He _ IH]; [reflexivity|].
  destruct e; try contradiction; exact IH.
Qed.

(** [strcpy] only stores. *)
Lemma strcpy_only_stores result : forall t off (w : world W),
  Forall (fun e => is_store e = true) (run_events (strcpy result off t w)).
Proof.
  induction t as [|c t IH]; intros off w; cbn [strcpy].
  - repeat constructor.
  - destruct (is_nul c); [repeat constructor|].
    rewrite run_events_bind. apply Forall_app. split; [repeat constructor|].
    apply IH.
Qed.

Lemma stores_queried (evs : list (event W)) :
  Forall (fun e => is_store e = true) evs ->
  segments_queried evs = [] /\ printed evs = [] /\ Forall loop_event evs.
Proof.
  induction 1 as [|e evs He _ [IH1 [IH2 IH3]]]; [repeat split; constructor|].
  destruct e; try discriminate. repeat split; try assumption.
  constructor; [exact I|assumption].
Qed.

(** Whatever the lengths, the loop only queries texts, stores and prints. *)
Lemma concat_segments_kinds ctx result result_size n_segments :
  forall fuel i pos (w : world W),
  Forall loop_event
    (run_events (concat_segments ctx result result_size n_segments fuel i pos w)).
Proof.
  induction fuel as [|fuel IH]; intros i pos w; cbn [concat_segments].
  - constructor.
  - destruct (i <? n_segments); [|constructor].
    step_run. constructor; [exact I|]. cbn [app].
    destruct (whisper_full_get_segment_text ctx i (lib w)) as [t|]; [|apply IH].
    destruct (_ <? result_size).
    + step_run. apply Forall_app. split; [|apply IH].
      apply stores_queried, strcpy_only_stores.
    + step_run. repeat constructor.
Qed.

End Traces.

Section LoopTrace.

Context {W : WhisperLibrary}.
Variables (ctx : whisper_context) (result : block).
Variables (result_size n_segments : Z).
Hypothesis n_segments_int : in_int n_segments.

(** The loop asks for the texts by ascending index, up to and including
    the first one it refuses and none after it, and prints its diagnostic
    exactly when it refuses one. *)
Lemma concat_segments_trace : forall fuel i pos w,
  Z.of_nat fuel = n_segments - i -> 0 <= i ->
  0 <= pos < result_size ->
  let segs := texts_from ctx (lib w) i fuel in
  no_overflow result_size pos segs ->
  let k := segments_kept result_size pos segs in
  let evs := run_events
               (concat_segments ctx result result_size n_segments fuel i pos w) in
  segments_queried evs = indices i (Nat.min (S k) fuel) /\
  printed evs = if (k <? fuel)%nat then [buffer_too_small] else [].
Proof.
  unfold in_int, INT_MIN, INT_MAX in *.
  induction fuel as [|fuel IH]; intros i pos w Hfuel Hi Hpos; cbv zeta.
  - intros _. split; reflexivity.
  - cbn [texts_from concat_segments]. intros Hrep.
    destruct (Z.ltb_spec i n_segments) as [Hlt|Hge]; [|lia].
    rewrite run_events_bind.
    cbn [lib_get run_value run_world run_events fst snd].
    assert (Hnext : wrap_int (i + 1) = i + 1)
      by (apply wrap_int_id; unfold in_int, INT_MIN, INT_MAX; lia).
    rewrite Hnext, segments_queried_app, printed_app.
    cbn [segments_queried flat_map printed filter is_printf app].
    destruct (whisper_full_get_segment_text ctx i (lib w)) as [t|] eqn:Htext.
    + cbn [no_overflow] in Hrep. destruct Hrep as [Hlen Hrest].
      destruct (wrap_int_sum pos (Z.of_nat (strlen t))) as [Hw1 [Hw2 Hw3]];
        [lia|lia|exact Hlen|].
      rewrite Hw1, Hw2, Hw3. cbn [segments_kept].
      destruct (Z.ltb_spec (pos + Z.of_nat (strlen t) + 1) result_size)
        as [Hfit|Hnofit].
      * rewrite run_events_bind, segments_queried_app, printed_app.
        destruct (stores_queried _ (strcpy_only_stores result t pos w))
          as [-> [-> _]].
        destruct (strcpy_spec result t pos w) as [Hc1 _].
        assert (Hlib : lib (run_world (strcpy result pos t w)) = lib w)
          by (apply (confined_lib _ _ _ _ _ _ Hc1)).
        cbv beta. cbn [app].
        destruct (IH (i + 1) (pos + Z.of_nat (strlen t))
                    (run_world (strcpy result pos t w))) as [Hq Hp];
          try lia.
        { rewrite (texts_from_lib ctx _ _ (i + 1) fuel Hlib).
          apply Hrest. exact Hfit. }
        rewrite (texts_from_lib ctx _ _ (i + 1) fuel Hlib) in Hq, Hp.
        rewrite Hq, Hp. cbn [Nat.min]. rewrite indices_cons.
        split; reflexivity.
      * cbn. unfold indices. cbn. rewrite Z.add_0_r. split; reflexivity.
    + cbn [segments_kept no_overflow] in *.
      destruct (IH (i + 1) pos w) as [Hq Hp]; try lia; try assumption.
      rewrite Hq, Hp. cbn [Nat.min]. rewrite indices_cons.
      split; reflexivity.
Qed.

End LoopTrace.

(** ** The successful path, step by step *)

Section Paths.

Context {W : WhisperLibrary}.

Definition completed_line (n_segments result_pos : Z) : event W :=
  Printf
    "whisper_wrapper: transcription completed, %d segments, result length: %d\n"
    [PInt n_segments; PInt result_pos].

Definition no_segments_line : event W :=
  Printf "whisper_wrapper: no segments found\n" [].

Definition failure_line (code : Z) : event W :=
  Printf "whisper_wrapper: failed to run whisper_full, error code: %d\n"
    [PInt code].

(** The three calls every validated transcription starts with. *)
Definition entry_calls (ctx : whisper_context) (samples : list float32)
    (n_samples : Z) : list (event W) :=
  [Call_full_default_params WHISPER_SAMPLING_GREEDY;
   Call_reset_timings ctx;
   Call_full ctx
     (configure (whisper_full_default_params WHISPER_SAMPLING_GREEDY))
     samples n_samples].

Lemma transcribe_no_segments_run ctx samples n_samples result result_size w :
  0 < result_size ->
  let out := full_outcome ctx samples n_samples w in
  fst out = 0 ->
  whisper_full_n_segments ctx (snd out) = 0 ->
  let r := whisper_wrapper_full_transcribe (Some ctx) (Some samples) n_samples
             (Some result) result_size w in
  run_value r = 0 /\
  lib (run_world r) = snd out /\
  heap (run_world r) =
    heap (run_world (store result 0 nul {| lib := snd out; heap := heap w |})) /\
  run_events r =
    (entry_calls ctx samples n_samples ++
     [Call_full_n_segments ctx; no_segments_line; Store result 0 nul])%list.
Proof.
  intros Hpos out Hok Hn r. subst r. unfold whisper_wrapper_full_transcribe.
  destruct (Z.leb_spec result_size 0) as [|_]; [lia|].
  step_run. fold (full_outcome ctx samples n_samples w). fold out.
  rewrite Hok. cbn [Z.eqb negb]. step_run. rewrite Hn. cbn [Z.eqb].
  step_run. repeat split; reflexivity.
Qed.

Lemma transcribe_segments_run ctx samples n_samples result result_size w :
  0 < result_size ->
  let out := full_outcome ctx samples n_samples w in
  fst out = 0 ->
  let n := whisper_full_n_segments ctx (snd out) in
  n <> 0 ->
  let loop := concat_segments ctx result result_size n (Z.to_nat n) 0 0
                {| lib := snd out; heap := heap w |} in
  let r := whisper_wrapper_full_transcribe (Some ctx) (Some samples) n_samples
             (Some result) result_size w in
  run_value r = 0 /\
  lib (run_world r) = whisper_print_timings ctx (lib (run_world loop)) /\
  heap (run_world r) =
    heap (run_world (store result (run_value loop) nul (run_world loop))) /\
  run_events r =
    (entry_calls ctx samples n_samples ++
     [Call_full_n_segments ctx] ++
     run_events loop ++
     [Store result (run_value loop) nul; Call_print_timings ctx;
      completed_line n (run_value loop)])%list.
Proof.
  intros Hpos out Hok n Hn loop r. subst r. unfold whisper_wrapper_full_transcribe.
  destruct (Z.leb_spec result_size 0) as [|_]; [lia|].
  step_run. fold (full_outcome ctx samples n_samples w). fold out.
  rewrite Hok. cbn [Z.eqb negb]. step_run. fold n.
  destruct (Z.eqb_spec n 0) as [|_]; [contradiction|].
  step_run. fold loop. repeat split; reflexivity.
Qed.

(** The loop of a call, started on the state [whisper_full] left. *)
Lemma transcribe_loop ctx result result_size (s : whisper_state)
    (h : block -> bytes) :
  0 < result_size ->
  let n := whisper_full_n_segments ctx s in
  let segs := segment_texts ctx s in
  no_overflow result_size 0 segs ->
  let k := segments_kept result_size 0 segs in
  let str := joined (firstn k segs) in
  let w0 := {| lib := s; heap := h |} in
  let loop := concat_segments ctx result result_size n (Z.to_nat n) 0 0 w0 in
  run_value loop = Z.of_nat (String.length str) /\
  confined result 0 (Z.of_nat (String.length str)) w0 (run_world loop)
    (run_events loop) /\
  holds (heap (run_world loop) result) 0 str /\
  segments_queried (run_events loop) =
    indices 0 (Nat.min (S k) (List.length segs)) /\
  printed (run_events loop) =
    (if (k <? List.length segs)%nat then [buffer_too_small] else []).
Proof.
  intros Hpos n segs Hno k str w0 loop.
  assert (Hcount : List.length segs = Z.to_nat n) by apply texts_from_length.
  destruct (Z.le_gt_cases n 0) as [Hle|Hgt].
  - assert (Hfuel : Z.to_nat n = O) by lia.
    assert (Hsegs : segs = []).
    { subst segs. unfold segment_texts. fold n. rewrite Hfuel. reflexivity. }
    subst loop str k. rewrite Hsegs, Hfuel. cbn.
    repeat split; try reflexivity; auto.
  - rewrite Hcount.
    destruct (concat_segments_spec ctx result result_size n
                (whisper_full_n_segments_int ctx s) (Z.to_nat n) 0 0 w0)
      as [Hv [Hconf [Hholds _]]]; try lia; [exact Hno|].
    destruct (concat_segments_trace ctx result result_size n
                (whisper_full_n_segments_int ctx s) (Z.to_nat n) 0 0 w0)
      as [Hq Hp]; try lia; [exact Hno|].
    cbn [Z.add] in Hv, Hconf.
    split; [exact Hv|split; [exact Hconf|split; [exact Hholds|split;
      [exact Hq|exact Hp]]]].
Qed.

End Paths.

(** ** Properties of a transcription *)

Lemma joined_split (a b : list (option string)) :
  joined (a ++ b)%list = (joined a ++ joined b)%string.
Proof.
  induction a as [|[t|] a IH]; simpl; [reflexivity| |exact IH].
  rewrite IH. generalize (c_str t) as x. intros x.
  induction x as [|c x IHx]; simpl; congruence.
Qed.

Lemma firstn_extends {A} (l : list A) : forall k k',
  (k <= k')%nat -> exists m, firstn k' l = (firstn k l ++ m)%list.
Proof.
  induction l as [|x l IH]; intros k k' Hk.
  - exists []. rewrite !firstn_nil. reflexivity.
  - destruct k as [|k]; [exists (firstn k' (x :: l)); reflexivity|].
    destruct k' as [|k']; [lia|].
    destruct (IH k k' ltac:(lia)) as [m Hm].
    exists m. cbn [firstn app]. rewrite Hm. reflexivity.
Qed.

(** A larger buffer never lets fewer segments through. *)
Lemma segments_kept_mono size size' : forall segs pos,
  size <= size' ->
  (segments_kept size pos segs <= segments_kept size' pos segs)%nat.
Proof.
  induction segs as [|[t|] segs IH]; simpl; intros pos Hle.
  - lia.
  - destruct (Z.ltb_spec (pos + Z.of_nat (strlen t) + 1) size);
      destruct (Z.ltb_spec (pos + Z.of_nat (strlen t) + 1) size'); try lia.
    specialize (IH (pos + Z.of_nat (strlen t)) Hle). lia.
  - specialize (IH pos Hle). lia.
Qed.

(** The text the loop lets through is empty or leaves a byte unused after
    its terminator. *)
Lemma segments_kept_spare size : forall segs pos,
  let len := joined_length (firstn (segments_kept size pos segs) segs) in
  len = 0 \/ pos + len + 1 < size.
Proof.
  unfold joined_length.
  induction segs as [|[t|] segs IH]; intros pos; cbv zeta; cbn [segments_kept].
  - left. reflexivity.
  - destruct (Z.ltb_spec (pos + Z.of_nat (strlen t) + 1) size) as [Hfit|];
      [|left; reflexivity].
    cbn [firstn joined]. rewrite length_append, strlen_c_str. right.
    destruct (IH (pos + Z.of_nat (strlen t))) as [H|H]; cbv zeta in H; lia.
  - cbn [firstn joined]. apply IH.
Qed.

Lemma segments_kept_bound size : forall segs pos,
  (segments_kept size pos segs <= List.length segs)%nat.
Proof.
  induction segs as [|[t|] segs IH]; simpl; intros pos.
  - lia.
  - destruct (pos + Z.of_nat (strlen t) + 1 <? size); [|lia].
    specialize (IH (pos + Z.of_nat (strlen t))). lia.
  - specialize (IH pos). lia.
Qed.

Section Extras.

Context {W : WhisperLibrary}.

(** What a successful call leaves behind, as long as no length overflows. *)
Lemma transcribe_success ctx samples n_samples result result_size w :
  0 < result_size ->
  let out := full_outcome ctx samples n_samples w in
  fst out = 0 ->
  let n := whisper_full_n_segments ctx (snd out) in
  let segs := segment_texts ctx (snd out) in
  no_overflow result_size 0 segs ->
  let k := segments_kept result_size 0 segs in
  let len := joined_length (firstn k segs) in
  let r := whisper_wrapper_full_transcribe (Some ctx) (Some samples) n_samples
             (Some result) result_size w in
  heap (run_world r) result len = nul /\
  (forall j, j < 0 \/ len < j ->
     heap (run_world r) result j = heap w result j) /\
  segments_queried (run_events r) =
    indices 0 (Nat.min (S k) (List.length segs)) /\
  printed (run_events r) =
    (if n =? 0 then [no_segments_line]
     else ((if (k <? List.length segs)%nat then [buffer_too_small] else []) ++
           [completed_line n len])%list).
Proof.
  intros Hpos out Hok n segs Hno k len r.
  assert (Hcount : List.length segs = Z.to_nat n) by apply texts_from_length.
  destruct (Z.eqb_spec n 0) as [Hn|Hn].
  - destruct (transcribe_no_segments_run ctx samples n_samples result
                result_size w Hpos Hok Hn) as [_ [_ [Hheap Hevs]]].
    fold r in Hheap, Hevs. rewrite Hheap, Hevs.
    assert (Hsegs : segs = []).
    { destruct segs; [reflexivity|]. rewrite Hn in Hcount. discriminate. }
    subst len k. rewrite Hsegs. cbn [segments_kept firstn joined_length joined
                                   String.length Z.of_nat List.length].
    split; [apply store_value|]. split; [|split; reflexivity].
    intros j Hj.
    rewrite (confined_bytes _ _ _ _ _ _ (store_confined result 0 nul _)) by lia.
    reflexivity.
  - destruct (transcribe_segments_run ctx samples n_samples result
                result_size w Hpos Hok Hn) as [_ [_ [Hheap Hevs]]].
    fold out in Hheap, Hevs. fold n in Hheap, Hevs.
    fold r in Hheap, Hevs. rewrite Hheap, Hevs.
    destruct (transcribe_loop ctx result result_size (snd out) (heap w)
                Hpos Hno) as [Hv [Hconf [_ [Hq Hp]]]].
    fold n in Hv, Hconf, Hq, Hp.
    set (loop := concat_segments ctx result result_size n (Z.to_nat n) 0 0
                   {| lib := snd out; heap := heap w |}) in *.
    change (run_value loop = len) in Hv.
    change (confined result 0 len {| lib := snd out; heap := heap w |}
              (run_world loop) (run_events loop)) in Hconf.
    fold segs k in Hq, Hp. rewrite Hv.
    assert (Hlen : 0 <= len) by (unfold len, joined_length; lia).
    split; [apply store_value|]. split; [|split].
    + intros j Hj.
      rewrite (confined_bytes _ _ _ _ _ _ (store_confined result len nul _))
        by lia.
      apply (confined_bytes _ _ _ _ _ _ Hconf). lia.
    + rewrite !segments_queried_app, Hq. unfold entry_calls.
      cbn [segments_queried flat_map app]. apply app_nil_r.
    + rewrite !printed_app, Hp. unfold entry_calls, completed_line.
      cbn [printed filter is_printf app]. reflexivity.
Qed.

(** X1: when [whisper_full] fails, the wrapper leaves the caller's buffer
    as it found it (no terminator is written), asks for no segment, and
    prints one line carrying the error code. *)
Theorem X1_failure_leaves_buffer
    ctx samples n_samples result result_size (w : world W) :
  0 < result_size ->
  let out := full_outcome ctx samples n_samples w in
  fst out <> 0 ->
  let r := whisper_wrapper_full_transcribe (Some ctx) (Some samples) n_samples
             (Some result) result_size w in
  heap (run_world r) = heap w /\
  lib (run_world r) = snd out /\
  filter is_store (run_events r) = [] /\
  segments_queried (run_events r) = [] /\
  printed (run_events r) = [failure_line (fst out)].
Proof.
  intros Hpos out Hbad r. subst r. unfold whisper_wrapper_full_transcribe.
  destruct (Z.leb_spec result_size 0) as [|_]; [lia|].
  step_run. fold (full_outcome ctx samples n_samples w). fold out.
  destruct (Z.eqb_spec (fst out) 0) as [|_]; [contradiction|].
  cbn [negb]. step_run. repeat split; reflexivity.
Qed.

(** X2: a validated call resets the library's timings exactly once and,
    after that, prints them exactly once if and only if [whisper_full]
    succeeded and reported a nonzero segment count. *)
Theorem X2_timing_calls
    ctx samples n_samples result result_size (w : world W) :
  0 < result_size ->
  let out := full_outcome ctx samples n_samples w in
  let n := whisper_full_n_segments ctx (snd out) in
  let r := whisper_wrapper_full_transcribe (Some ctx) (Some samples) n_samples
             (Some result) result_size w in
  timing_calls (run_events r) =
    Call_reset_timings ctx ::
    (if (fst out =? 0) && negb (n =? 0) then [Call_print_timings ctx] else []).
Proof.
  intros Hpos out n r.
  destruct (Z.eqb_spec (fst out) 0) as [Hok|Hbad].
  - destruct (Z.eqb_spec n 0) as [Hn|Hn].
    + destruct (transcribe_no_segments_run ctx samples n_samples result
                  result_size w Hpos Hok Hn) as [_ [_ [_ Hevs]]].
      fold r in Hevs. rewrite Hevs. reflexivity.
    + destruct (transcribe_segments_run ctx samples n_samples result
                  result_size w Hpos Hok Hn) as [_ [_ [_ Hevs]]].
      fold r in Hevs. rewrite Hevs. rewrite !timing_calls_app.
      rewrite (timing_calls_loop_events _ (concat_segments_kinds _ _ _ _ _ _ _ _)).
      reflexivity.
  - destruct (transcribe_failure ctx samples n_samples result result_size w
                Hpos Hbad) as [_ [_ Hevs]].
    fold r in Hevs. rewrite Hevs. reflexivity.
Qed.

(** X3: a segment count that is zero or negative gives the empty string:
    the wrapper returns 0, puts a NUL at [result[0]], changes no other
    byte and asks for no segment text. *)
Theorem X3_nonpositive_segment_count
    ctx samples n_samples result result_size (w : world W) :
  0 < result_size ->
  let out := full_outcome ctx samples n_samples w in
  fst out = 0 ->
  whisper_full_n_segments ctx (snd out) <= 0 ->
  let r := whisper_wrapper_full_transcribe (Some ctx) (Some samples) n_samples
             (Some result) result_size w in
  run_value r = 0 /\
  load_cstring (heap (run_world r) result) 0 (Z.to_nat result_size) =
    Some EmptyString /\
  (forall j, j <> 0 -> heap (run_world r) result j = heap w result j) /\
  segments_queried (run_events r) = [].
Proof.
  intros Hpos out Hok Hn r.
  assert (Hsegs : segment_texts ctx (snd out) = []).
  { unfold segment_texts.
    replace (Z.to_nat (whisper_full_n_segments ctx (snd out))) with O by lia.
    reflexivity. }
  assert (Hno : no_overflow result_size 0 (segment_texts ctx (snd out)))
    by (rewrite Hsegs; exact I).
  destruct (transcribe_spec ctx samples n_samples result result_size w
              Hpos Hok Hno) as [Hv [Hload _]].
  destruct (transcribe_success ctx samples n_samples result result_size w
              Hpos Hok Hno) as [_ [Hframe [Hq _]]].
  fold out in Hload, Hframe, Hq. rewrite Hsegs in Hload, Hframe, Hq.
  split; [exact Hv|]. split; [exact Hload|]. split; [|exact Hq].
  intros j Hj. apply Hframe. cbn. lia.
Qed.

(** X4: the wrapper asks the library for the segment texts by ascending
    index, each index once, starting at 0; it stops asking right after the
    first text it refuses, and asks for every index when it refuses none. *)
Theorem X4_segments_queried_in_order
    ctx samples n_samples result result_size (w : world W) :
  0 < result_size ->
  let out := full_outcome ctx samples n_samples w in
  fst out = 0 ->
  let segs := segment_texts ctx (snd out) in
  lengths_representable result_size segs ->
  let k := segments_kept result_size 0 segs in
  let r := whisper_wrapper_full_transcribe (Some ctx) (Some samples) n_samples
             (Some result) result_size w in
  segments_queried (run_events r) =
    indices 0 (Nat.min (S k) (List.length segs)).
Proof.
  intros Hpos out Hok segs Hrep k r.
  assert (Hno : no_overflow result_size 0 segs)
    by (apply no_overflow_representable; [lia|exact Hrep]).
  apply (transcribe_success ctx samples n_samples result result_size w
           Hpos Hok Hno).
Qed.

(** X5: on success the wrapper's standard output is the "no segments
    found" line when the count is 0, and otherwise the "result buffer too
    small" line if and only if a segment was refused, followed by the
    completion line, whose two numbers are the segment count and the
    length of the string left in [result]. *)
Theorem X5_standard_output
    ctx samples n_samples result result_size (w : world W) :
  0 < result_size ->
  let out := full_outcome ctx samples n_samples w in
  fst out = 0 ->
  let n := whisper_full_n_segments ctx (snd out) in
  let segs := segment_texts ctx (snd out) in
  lengths_representable result_size segs ->
  let k := segments_kept result_size 0 segs in
  let r := whisper_wrapper_full_transcribe (Some ctx) (Some samples) n_samples
             (Some result) result_size w in
  exists str,
    load_cstring (heap (run_world r) result) 0 (Z.to_nat result_size) =
      Some str /\
    printed (run_events r) =
      (if n =? 0 then [no_segments_line]
       else ((if (k <? List.length segs)%nat then [buffer_too_small] else []) ++
             [completed_line n (Z.of_nat (String.length str))])%list).
Proof.
  intros Hpos out Hok n segs Hrep k r.
  assert (Hno : no_overflow result_size 0 segs)
    by (apply no_overflow_representable; [lia|exact Hrep]).
  destruct (transcribe_spec ctx samples n_samples result result_size w
              Hpos Hok Hno) as [_ [Hload _]].
  destruct (transcribe_success ctx samples n_samples result result_size w
              Hpos Hok Hno) as [_ [_ [_ Hp]]].
  eexists. split; [exact Hload|exact Hp].
Qed.

(** X6: on success the wrapper writes the text and one terminator and
    nothing else: the byte at the string's length is NUL, and every byte
    of [result] beyond it keeps the value it had before the call. *)
Theorem X6_bytes_beyond_terminator
    ctx samples n_samples result result_size (w : world W) :
  0 < result_size ->
  let out := full_outcome ctx samples n_samples w in
  fst out = 0 ->
  let segs := segment_texts ctx (snd out) in
  lengths_representable result_size segs ->
  let r := whisper_wrapper_full_transcribe (Some ctx) (Some samples) n_samples
             (Some result) result_size w in
  exists str,
    load_cstring (heap (run_world r) result) 0 (Z.to_nat result_size) =
      Some str /\
    heap (run_world r) result (Z.of_nat (String.length str)) = nul /\
    forall j, Z.of_nat (String.length str) < j ->
      heap (run_world r) result j = heap w result j.
Proof.
  intros Hpos out Hok segs Hrep r.
  assert (Hno : no_overflow result_size 0 segs)
    by (apply no_overflow_representable; [lia|exact Hrep]).
  destruct (transcribe_spec ctx samples n_samples result result_size w
              Hpos Hok Hno) as [_ [Hload _]].
  destruct (transcribe_success ctx samples n_samples result result_size w
              Hpos Hok Hno) as [Hnul [Hframe _]].
  eexists. split; [exact Hload|]. split; [exact Hnul|].
  intros j Hj. apply Hframe. right. exact Hj.
Qed.

(** X7: on success [result] holds the texts of the first [k] whole
    segments for some [k] up to the segment count, which is a prefix of
    the full concatenation; that string is empty or at most
    [result_size - 2] bytes long, so the last byte of the buffer is never
    used for a non-empty result. *)
Theorem X7_whole_segments_spare_byte
    ctx samples n_samples result result_size (w : world W) :
  0 < result_size ->
  let out := full_outcome ctx samples n_samples w in
  fst out = 0 ->
  let segs := segment_texts ctx (snd out) in
  lengths_representable result_size segs ->
  let r := whisper_wrapper_full_transcribe (Some ctx) (Some samples) n_samples
             (Some result) result_size w in
  exists k rest,
    (k <= List.length segs)%nat /\
    load_cstring (heap (run_world r) result) 0 (Z.to_nat result_size) =
      Some (joined (firstn k segs)) /\
    joined segs = (joined (firstn k segs) ++ rest)%string /\
    (joined_length (firstn k segs) = 0 \/
     joined_length (firstn k segs) + 2 <= result_size).
Proof.
  intros Hpos out Hok segs Hrep r.
  assert (Hno : no_overflow result_size 0 segs)
    by (apply no_overflow_representable; [lia|exact Hrep]).
  destruct (transcribe_spec ctx samples n_samples result result_size w
              Hpos Hok Hno) as [_ [Hload _]].
  exists (segments_kept result_size 0 segs),
         (joined (skipn (segments_kept result_size 0 segs) segs)).
  split; [apply segments_kept_bound|]. split; [exact Hload|]. split.
  - rewrite <- joined_split, firstn_skipn. reflexivity.
  - destruct (segments_kept_spare result_size segs 0) as [H|H];
      cbv zeta in H; [left; exact H|right; lia].
Qed.

(** X8: calling with a larger [result_size] on the same library state
    never shortens the result: what the smaller buffer receives is a
    prefix of what the larger one receives. *)
Theorem X8_larger_buffer_extends
    ctx samples n_samples result result_size result_size' (w : world W) :
  0 < result_size -> result_size <= result_size' ->
  let out := full_outcome ctx samples n_samples w in
  fst out = 0 ->
  lengths_representable result_size' (segment_texts ctx (snd out)) ->
  let r := whisper_wrapper_full_transcribe (Some ctx) (Some samples) n_samples
             (Some result) result_size w in
  let r' := whisper_wrapper_full_transcribe (Some ctx) (Some samples) n_samples
              (Some result) result_size' w in
  exists str rest,
    load_cstring (heap (run_world r) result) 0 (Z.to_nat result_size) =
      Some str /\
    load_cstring (heap (run_world r') result) 0 (Z.to_nat result_size') =
      Some (str ++ rest)%string.
Proof.
  intros Hpos Hle out Hok Hrep' r r'.
  set (segs := segment_texts ctx (snd out)) in *.
  assert (Hrep : lengths_representable result_size segs).
  { intros t Ht. specialize (Hrep' t Ht). lia. }
  assert (Hno : no_overflow result_size 0 segs)
    by (apply no_overflow_representable; [lia|exact Hrep]).
  assert (Hno' : no_overflow result_size' 0 segs)
    by (apply no_overflow_representable; [lia|exact Hrep']).
  destruct (transcribe_spec ctx samples n_samples result result_size w
              Hpos Hok Hno) as [_ [Hload _]].
  destruct (transcribe_spec ctx samples n_samples result result_size' w
              ltac:(lia) Hok Hno') as [_ [Hload' _]].
  fold out in Hload, Hload'. fold segs in Hload, Hload'.
  destruct (firstn_extends segs _ _
              (segments_kept_mono result_size result_size' segs 0 Hle))
    as [m Hm].
  rewrite Hm, joined_split in Hload'.
  eexists. eexists. split; [exact Hload|exact Hload'].
Qed.

(** X9: provided every segment text is shorter than [2^31 - result_size]
    bytes, every byte the wrapper stores goes to [result] at an offset
    from 0 to [result_size - 1], and a return of 0 leaves in [result] a
    null-terminated string of at most [result_size - 1] bytes. *)
Theorem X9_stores_inside_buffer
    ctx samples n_samples result result_size (w : world W) :
  (forall c a, ctx = Some c -> samples = Some a ->
     fst (full_outcome c a n_samples w) = 0 ->
     lengths_representable result_size
       (segment_texts c (snd (full_outcome c a n_samples w)))) ->
  let r := whisper_wrapper_full_transcribe ctx samples n_samples result
             result_size w in
  (forall b off c, In (Store b off c) (run_events r) ->
     result = Some b /\ 0 <= off < result_size) /\
  (forall b, result = Some b -> run_value r = 0 ->
     exists s,
       load_cstring (heap (run_world r) b) 0 (Z.to_nat result_size) = Some s /\
       Z.of_nat (String.length s) <= result_size - 1).
Proof. exact (transcribe_within_bounds ctx samples n_samples result result_size w). Qed.

(** X10: a validated call makes exactly one [whisper_full] call, and the
    parameters it passes have the four print flags ([print_realtime],
    [print_progress], [print_timestamps], [print_special]) off. *)
Theorem X10_print_flags_off
    ctx samples n_samples result result_size (w : world W) :
  0 < result_size ->
  let r := whisper_wrapper_full_transcribe (Some ctx) (Some samples) n_samples
             (Some result) result_size w in
  exists p,
    full_params_passed (run_events r) = [p] /\
    print_realtime p = false /\ print_progress p = false /\
    print_timestamps p = false /\ print_special p = false.
Proof.
  intros Hpos r.
  destruct (transcribe_params ctx samples n_samples result result_size w Hpos)
    as [Hp _].
  eexists. split; [exact Hp|]. repeat split; reflexivity.
Qed.

(** X11: [whisper_wrapper_init_from_file] writes to no memory, hands the
    path to the library as it received it (a NULL path included), leaves
    the library in the state the init call produced, and prints one line:
    the "initialized" one when the library returned a context, the
    "failed" one when it returned NULL. *)
Theorem X11_init_trace path_model (w : world W) :
  let cparams :=
    {| use_gpu := true;
       cparams_other := cparams_other whisper_context_default_params |} in
  let answer := whisper_init_from_file_with_params path_model cparams (lib w) in
  let r := whisper_wrapper_init_from_file path_model w in
  heap (run_world r) = heap w /\
  lib (run_world r) = snd answer /\
  run_events r =
    [Call_context_default_params;
     Call_init_from_file_with_params path_model cparams;
     Printf
       (match fst answer with
        | Some _ => "whisper_wrapper: initialized context from file '%s'\n"
        | None =>
            "whisper_wrapper: failed to initialize context from file '%s'\n"
        end)
       [PStr path_model]].
Proof.
  intros cparams answer r. subst r. unfold whisper_wrapper_init_from_file.
  step_run. fold cparams. fold answer.
  destruct (fst answer); step_run; repeat split; reflexivity.
Qed.

(** X12: handing the result of [whisper_wrapper_init_from_file] to
    [whisper_wrapper_free] frees exactly the context the library created,
    and frees nothing when the init failed. *)
Theorem X12_init_then_free path_model (w : world W) :
  let answer :=
    whisper_init_from_file_with_params path_model
      {| use_gpu := true;
         cparams_other := cparams_other whisper_context_default_params |}
      (lib w) in
  let r := bind (whisper_wrapper_init_from_file path_model)
             whisper_wrapper_free w in
  contexts_freed (run_events r) =
    match fst answer with Some c => [c] | None => [] end /\
  lib (run_world r) =
    match fst answer with
    | Some c => whisper_free c (snd answer)
    | None => snd answer
    end /\
  heap (run_world r) = heap w.
Proof.
  intros answer r. subst r. unfold whisper_wrapper_init_from_file.
  step_run. fold answer.
  destruct (fst answer); step_run; cbn [whisper_wrapper_free]; step_run;
    repeat split; reflexivity.
Qed.

(** X13: handing the NULL of a failed init to
    [whisper_wrapper_full_transcribe] is refused with -1: the library is
    entered for the two init calls only, and no memory is written. *)
Theorem X13_transcribe_after_failed_init
    path_model samples n_samples result result_size (w : world W) :
  let cparams :=
    {| use_gpu := true;
       cparams_other := cparams_other whisper_context_default_params |} in
  fst (whisper_init_from_file_with_params path_model cparams (lib w)) = None ->
  let r := bind (whisper_wrapper_init_from_file path_model)
             (fun ctx => whisper_wrapper_full_transcribe ctx samples n_samples
                           result result_size) w in
  run_value r = -1 /\
  library_calls (run_events r) =
    [Call_context_default_params;
     Call_init_from_file_with_params path_model cparams] /\
  heap (run_world r) = heap w.
Proof.
  intros cparams Hfail r. subst r.
  unfold whisper_wrapper_init_from_file. step_run. fold cparams.
  rewrite Hfail. step_run. rewrite transcribe_invalid by auto.
  repeat split; reflexivity.
Qed.

(** X14: the wrapper starts writing at offset 0 and never reads
    [result]: two calls on the same library state return the same value and
    leave the same string, whatever the buffers held before. *)
Theorem X14_previous_contents_ignored
    ctx samples n_samples result result_size (w w' : world W) :
  0 < result_size -> lib w = lib w' ->
  let out := full_outcome ctx samples n_samples w in
  fst out = 0 ->
  lengths_representable result_size (segment_texts ctx (snd out)) ->
  let r := whisper_wrapper_full_transcribe (Some ctx) (Some samples) n_samples
             (Some result) result_size w in
  let r' := whisper_wrapper_full_transcribe (Some ctx) (Some samples) n_samples
              (Some result) result_size w' in
  run_value r = run_value r' /\
  exists str,
    load_cstring (heap (run_world r) result) 0 (Z.to_nat result_size) =
      Some str /\
    load_cstring (heap (run_world r') result) 0 (Z.to_nat result_size) =
      Some str.
Proof.
  intros Hpos Hlib out Hok Hrep r r'.
  assert (Hout : full_outcome ctx samples n_samples w' = out).
  { unfold out, full_outcome. rewrite Hlib. reflexivity. }
  assert (Hno : no_overflow result_size 0 (segment_texts ctx (snd out)))
    by (apply no_overflow_representable; [lia|exact Hrep]).
  destruct (transcribe_spec ctx samples n_samples result result_size w
              Hpos Hok Hno) as [Hv [Hload _]].
  destruct (transcribe_spec ctx samples n_samples result result_size w' Hpos)
    as [Hv' [Hload' _]].
  - rewrite Hout. exact Hok.
  - rewrite Hout. exact Hno.
  - rewrite Hout in Hload'. fold r in Hv, Hload. fold r' in Hv', Hload'.
    split; [congruence|]. eexists. split; [exact Hload|exact Hload'].
Qed.

End Extras.

(** ** The further properties on concrete runs *)

Lemma X1_witness :
  let r := Mock.transcribe (-7) [Some "abc"%string] 4 in
  heap (run_world r) = heap (Mock.fresh (Mock.scripted (-7) [Some "abc"%string]))
  /\ printed (run_events r) = [failure_line (-7)].
Proof.
  intros r.
  destruct (X1_failure_leaves_buffer (W := Mock.library) 1%nat
              [f32_zero; f32_one] 2 0%nat 4
              (Mock.fresh (Mock.scripted (-7) [Some "abc"%string])))
    as [Hheap [_ [_ [_ Hp]]]].
  - reflexivity.
  - vm_compute. discriminate.
  - split; [exact Hheap|exact Hp].
Defined.

Lemma X2_witness :
  timing_calls (run_events (Mock.transcribe 0 [Some "abc"%string] 8)) =
  [@Call_reset_timings Mock.library 1%nat;
   @Call_print_timings Mock.library 1%nat].
Proof.
  exact (X2_timing_calls (W := Mock.library) 1%nat [f32_zero; f32_one] 2
           0%nat 8 (Mock.fresh (Mock.scripted 0 [Some "abc"%string])) eq_refl).
Defined.

Lemma X3_witness :
  let r := Mock.transcribe 0 [] 4 in
  run_value r = 0 /\ Mock.result_string r 4 = Some ""%string.
Proof.
  intros r.
  destruct (X3_nonpositive_segment_count (W := Mock.library) 1%nat
              [f32_zero; f32_one] 2 0%nat 4 (Mock.fresh (Mock.scripted 0 [])))
    as [Hv [Hload _]].
  - reflexivity.
  - reflexivity.
  - vm_compute. discriminate.
  - split; [exact Hv|exact Hload].
Defined.

Lemma X4_witness :
  segments_queried
    (run_events
       (Mock.transcribe 0 [Some "abc"; None; Some "defg"; Some "h"]%string 8)) =
  [0; 1; 2].
Proof.
  apply (X4_segments_queried_in_order (W := Mock.library) 1%nat
           [f32_zero; f32_one] 2 0%nat 8
           (Mock.fresh
              (Mock.scripted 0 [Some "abc"; None; Some "defg"; Some "h"]%string))).
  - reflexivity.
  - reflexivity.
  - intros t [Ht|[Ht|[Ht|[Ht|[]]]]]; inversion Ht; vm_compute; discriminate.
Defined.

Lemma X5_witness :
  printed
    (run_events
       (Mock.transcribe 0 [Some "abc"; None; Some "defg"; Some "h"]%string 8)) =
  [buffer_too_small; completed_line 4 3].
Proof.
  destruct (X5_standard_output (W := Mock.library) 1%nat
              [f32_zero; f32_one] 2 0%nat 8
              (Mock.fresh
                 (Mock.scripted 0
                    [Some "abc"; None; Some "defg"; Some "h"]%string)))
    as [str [Hload Hp]].
  - reflexivity.
  - reflexivity.
  - intros t [Ht|[Ht|[Ht|[Ht|[]]]]]; inversion Ht; vm_compute; discriminate.
  - vm_compute in Hload. injection Hload as <-. exact Hp.
Defined.

Lemma X6_witness :
  let r := Mock.transcribe 0 [Some "abc"; Some "defg"]%string 8 in
  heap (run_world r) 0%nat 3 = nul /\ heap (run_world r) 0%nat 7 = "x"%char.
Proof.
  intros r.
  destruct (X6_bytes_beyond_terminator (W := Mock.library) 1%nat
              [f32_zero; f32_one] 2 0%nat 8
              (Mock.fresh (Mock.scripted 0 [Some "abc"; Some "defg"]%string)))
    as [str [Hload [Hnul Hframe]]].
  - reflexivity.
  - reflexivity.
  - intros t [Ht|[Ht|[]]]; inversion Ht; vm_compute; discriminate.
  - vm_compute in Hload. injection Hload as <-.
    split; [exact Hnul|]. apply (Hframe 7). reflexivity.
Defined.

Lemma X7_witness :
  let segs := [Some "abc"; None; Some "defg"; Some "h"]%string in
  let r := Mock.transcribe 0 segs 8 in
  exists k,
    (k <= 4)%nat /\ Mock.result_string r 8 = Some (joined (firstn k segs)).
Proof.
  intros segs r.
  destruct (X7_whole_segments_spare_byte (W := Mock.library) 1%nat
              [f32_zero; f32_one] 2 0%nat 8 (Mock.fresh (Mock.scripted 0 segs)))
    as [k [rest [Hk [Hload _]]]].
  - reflexivity.
  - reflexivity.
  - intros t [Ht|[Ht|[Ht|[Ht|[]]]]]; inversion Ht; vm_compute; discriminate.
  - exists k. split; [exact Hk|exact Hload].
Defined.

Lemma X8_witness :
  let segs := [Some "abc"; Some "d"]%string in
  exists str rest,
    Mock.result_string (Mock.transcribe 0 segs 4) 4 = Some str /\
    Mock.result_string (Mock.transcribe 0 segs 8) 8 = Some (str ++ rest)%string.
Proof.
  intros segs.
  apply (X8_larger_buffer_extends (W := Mock.library) 1%nat
           [f32_zero; f32_one] 2 0%nat 4 8 (Mock.fresh (Mock.scripted 0 segs))).
  - reflexivity.
  - discriminate.
  - reflexivity.
  - intros t [Ht|[Ht|[]]]; inversion Ht; vm_compute; discriminate.
Defined.

Lemma X9_witness :
  Forall (store_within 0%nat 0 7)
    (run_events (Mock.transcribe 0 [Some "abc"; Some "defg"]%string 8)).
Proof.
  destruct (X9_stores_inside_buffer (W := Mock.library) (Some 1%nat)
              (Some [f32_zero; f32_one]) 2 (Some 0%nat) 8
              (Mock.fresh (Mock.scripted 0 [Some "abc"; Some "defg"]%string)))
    as [Hstores _].
  - intros c0 a Hc Ha _. injection Hc as <-. injection Ha as <-.
    intros t [Ht|[Ht|[]]]; inversion Ht; vm_compute; discriminate.
  - apply Forall_forall. intros e He. destruct e; try exact I.
    destruct (Hstores _ _ _ He) as [Hb Hoff]. injection Hb as <-.
    split; [reflexivity|lia].
Defined.

Lemma X10_witness :
  exists p,
    full_params_passed
      (run_events (Mock.transcribe 0 [Some "abc"%string] 8)) = [p] /\
    print_realtime p = false /\ print_progress p = false /\
    print_timestamps p = false /\ print_special p = false.
Proof.
  apply (X10_print_flags_off (W := Mock.library) 1%nat [f32_zero; f32_one] 2
           0%nat 8 (Mock.fresh (Mock.scripted 0 [Some "abc"%string]))).
  reflexivity.
Defined.

Lemma X13_witness :
  run_value
    (bind (whisper_wrapper_init_from_file (W := Mock.library)
             (Some "missing.bin"%string))
       (fun ctx => whisper_wrapper_full_transcribe ctx
                     (Some [f32_zero]) 1 (Some 0%nat) 8)
       (Mock.fresh (Mock.scripted 0 [Some "abc"%string]))) = -1.
Proof.
  apply (X13_transcribe_after_failed_init (W := Mock.library)
           (Some "missing.bin"%string) (Some [f32_zero]) 1 (Some 0%nat) 8
           (Mock.fresh (Mock.scripted 0 [Some "abc"%string]))).
  reflexivity.
Defined.

Lemma X14_witness :
  let segs := [Some "abc"; Some "defg"]%string in
  let st := Mock.scripted 0 segs in
  let r := whisper_wrapper_full_transcribe (W := Mock.library) (Some 1%nat)
             (Some [f32_zero]) 1 (Some 0%nat) 16 (Mock.fresh st) in
  let r' := whisper_wrapper_full_transcribe (W := Mock.library) (Some 1%nat)
              (Some [f32_zero]) 1 (Some 0%nat) 16
              (@Build_world Mock.library st (fun _ _ => "y"%char)) in
  run_value r = run_value r' /\
  exists str,
    Mock.result_string r 16 = Some str /\ Mock.result_string r' 16 = Some str.
Proof.
  intros segs st r r'.
  apply (X14_previous_contents_ignored (W := Mock.library) 1%nat [f32_zero] 1
           0%nat 16 (Mock.fresh st) (@Build_world Mock.library st (fun _ _ => "y"%char))).
  - reflexivity.
  - reflexivity.
  - reflexivity.
  - intros t [Ht|[Ht|[]]]; inversion Ht; vm_compute; discriminate.
Defined.
